(** * generate_field: the three-dipole field model and its data sets

    A shallow embedding of the notebook [generate_field.ipynb].

    Numbers.  The notebook computes in numpy [float64].  Here every
    floating-point number is read as the real number it stands for and
    every arithmetic operation as the exact operation on [R]; rounding,
    overflow, infinities and NaN are outside this model.  The test
    [np.dot(R,R) == 0] becomes the (classically decidable) equality test
    on [R].  One effect of float64 is more than a difference in the
    last bits and is modelled: [np.tanh] returns exactly [1.0] and
    [-1.0] on its tails.  [moment_nonlinear] reads [np.tanh] as the
    exact [tanh]; [moment_nonlinear_fl] reads it as [np_tanh], which
    has the saturation.  The two agree for voltages up to [nf] in
    absolute value, which covers the voltage range of the notebook.

    numpy.  [np.linspace], [np.zeros], [np.concatenate], [np.stack] and
    [np.random.uniform] are library functions; they are modelled after
    their documented behaviour, including the [ValueError]s they raise,
    in the section "numpy" below.

    Globals.  The physical constants of the notebook ([mu0], [m], [R1],
    [R2], [R3], [A], [r0], [nf]) are definitions with the values the
    notebook assigns.  The sampling parameters ([v_range], [N1], [N2],
    [N_val]) are collected in the record [Params]; [notebook_params]
    holds the values the notebook assigns to them. *)

From Stdlib Require Import Reals Lra Lia List ZArith Bool.
Import ListNotations.

Open Scope R_scope.

(** ** Vectors *)

(** A numpy array of shape (3,). *)
Definition vec3 : Type := R * R * R.

Definition zero3 : vec3 := (0, 0, 0).

Definition vadd (u v : vec3) : vec3 :=
  let '(u0, u1, u2) := u in
  let '(v0, v1, v2) := v in
  (u0 + v0, u1 + v1, u2 + v2).

Definition vsub (u v : vec3) : vec3 :=
  let '(u0, u1, u2) := u in
  let '(v0, v1, v2) := v in
  (u0 - v0, u1 - v1, u2 - v2).

(** [c * v] for a scalar [c] and an array [v]. *)
Definition smul (c : R) (v : vec3) : vec3 :=
  let '(v0, v1, v2) := v in (c * v0, c * v1, c * v2).

(** [v * c] for an array [v] and a scalar [c]. *)
Definition vmuls (v : vec3) (c : R) : vec3 :=
  let '(v0, v1, v2) := v in (v0 * c, v1 * c, v2 * c).

(** [v / c] for an array [v] and a scalar [c]. *)
Definition vdivs (v : vec3) (c : R) : vec3 :=
  let '(v0, v1, v2) := v in (v0 / c, v1 / c, v2 / c).

(** [np.tanh(v)], elementwise. *)
Definition vtanh (v : vec3) : vec3 :=
  let '(v0, v1, v2) := v in (tanh v0, tanh v1, tanh v2).

(** [np.dot(u, v)] *)
Definition dot (u v : vec3) : R :=
  let '(u0, u1, u2) := u in
  let '(v0, v1, v2) := v in
  u0 * v0 + u1 * v1 + u2 * v2.

(** [m_array[i]]; the notebook only uses the indices 0, 1 and 2. *)
Definition item (v : vec3) (i : nat) : R :=
  let '(v0, v1, v2) := v in
  match i with O => v0 | 1%nat => v1 | _ => v2 end.

(** [x == y] on numbers. *)
Definition Reqb (x y : R) : bool :=
  if Req_dec_T x y then true else false.

(** ** Constants and the setup parameters *)

(** magnetic constant, [10**-7] *)
Definition mu0 : R := 1e-7.

(** Scaling factor magnetic dipole magnitude *)
Definition m : R := 1e8.

(** Magnetic dipole position vectors *)
Definition R1 : vec3 := (1, 0, 1).
Definition R2 : vec3 := (- cos (PI / 3), sin (PI / 3), 1).
Definition R3 : vec3 := (- cos (PI / 3), - sin (PI / 3), 1).

(** Magnetic dipole orientation (same for all three) *)
Definition A : vec3 := (0, 0, 1).

(** The magnetometer location. *)
Definition r0 : vec3 := (0, 0, 0).

(** Non-linearity factor *)
Definition nf : R := 15.

(** ** Functions for the field calculations *)

(** [mag]: magnitude of vector x *)
Definition mag (x : vec3) : R := sqrt (dot x x).

(** [dipole_field(r, r0, m, a)]: the field of a single dipole.  The
    parameters [r0] and [m] hide the globals of the same names, as they
    do in the notebook. *)
Definition dipole_field (r r0 : vec3) (m : R) (a : vec3) : vec3 :=
  let M := smul m a in
  let R := vsub r r0 in
  if Reqb (dot R R) 0 then zero3
  else smul mu0 (vsub (vdivs (vmuls (smul 3 R) (dot M R)) (mag R ^ 5))
                      (vdivs M (mag R ^ 3))).

(** [total_field(r, m_array, dipole_axis)] *)
Definition total_field (r m_array dipole_axis : vec3) : vec3 :=
  let B1 := dipole_field r R1 (item m_array 0) dipole_axis in
  let B2 := dipole_field r R2 (item m_array 1) dipole_axis in
  let B3 := dipole_field r R3 (item m_array 2) dipole_axis in
  vadd (vadd B1 B2) B3.

(** ** numpy *)

(** The exceptions the numpy calls of the notebook can raise. *)
Inductive error : Type :=
| ValueError.

Inductive result (X : Type) : Type :=
| Ok (x : X)
| Err (e : error).
Arguments Ok {X} x.
Arguments Err {X} e.

Definition bind {X Y : Type} (c : result X) (k : X -> result Y) : result Y :=
  match c with
  | Ok x => k x
  | Err e => Err e
  end.

Declare Scope result_scope.
Delimit Scope result_scope with result.
Notation "x <- c ;; k" := (bind c (fun x => k))
  (at level 61, c at next level, right associativity) : result_scope.
Notation "' p <- c ;; k" := (bind c (fun x => let 'p := x in k))
  (at level 61, p pattern, c at next level, right associativity) : result_scope.
Open Scope result_scope.

(** [y[-1] = stop] *)
Fixpoint set_last (y : list R) (stop : R) : list R :=
  match y with
  | [] => []
  | [_] => [stop]
  | x :: y' => x :: set_last y' stop
  end.

(** [np.linspace(start, stop, num)] with the default [endpoint=True]:
    a negative [num] raises [ValueError]; otherwise the array is
    [arange(0, num) * step + start] with [step = (stop - start) / (num - 1)]
    (for [num = 1] there is no step and the array is [[start]]), and for
    [num > 1] the last item is overwritten with [stop].  numpy's separate
    path for a step that is exactly zero computes the same real numbers
    and is not reproduced. *)
Definition linspace (start stop : R) (num : Z) : result (list R) :=
  if (num <? 0)%Z then Err ValueError
  else
    let div := (num - 1)%Z in
    let delta := stop - start in
    let y := map INR (seq 0 (Z.to_nat num)) in
    let y := if (0 <? div)%Z
             then map (fun t => t * (delta / IZR div)) y
             else map (fun t => t * delta) y in
    let y := map (fun t => t + start) y in
    Ok (if (1 <? num)%Z then set_last y stop else y).

(** [np.zeros(n)]: a negative [n] raises [ValueError]. *)
Definition zeros (n : Z) : result (list R) :=
  if (n <? 0)%Z then Err ValueError else Ok (repeat 0 (Z.to_nat n)).

(** [np.stack((c1, c2, c3), axis=1)] on three one-dimensional arrays:
    they must have the same shape; row [i] of the result is
    [(c1[i], c2[i], c3[i])]. *)
Fixpoint stack_rows (c1 c2 c3 : list R) : list vec3 :=
  match c1, c2, c3 with
  | x :: c1', y :: c2', z :: c3' => (x, y, z) :: stack_rows c1' c2' c3'
  | _, _, _ => []
  end.

Definition stack_axis1 (c1 c2 c3 : list R) : result (list vec3) :=
  if ((length c1 =? length c2) && (length c2 =? length c3))%nat
  then Ok (stack_rows c1 c2 c3)
  else Err ValueError.

(** What [np.concatenate] makes of an argument before joining: an array
    of shape (n, 3) stays as it is; a Python list of n arrays of shape
    (3,) becomes an array of shape (n, 3), except that the empty list
    becomes the one-dimensional array of shape (0,). *)
Inductive ndarray : Type :=
| Arr1 (items : list R)
| Arr2 (rows : list vec3).

Definition of_list (l : list vec3) : ndarray :=
  match l with
  | [] => Arr1 []
  | _ => Arr2 l
  end.

(** [np.concatenate((a, b))], along axis 0: the arrays must have the
    same number of dimensions. *)
Definition concatenate (a b : ndarray) : result ndarray :=
  match a, b with
  | Arr1 x, Arr1 y => Ok (Arr1 (x ++ y))
  | Arr2 x, Arr2 y => Ok (Arr2 (x ++ y))
  | _, _ => Err ValueError
  end.

(** One row of a data frame with the columns
    ["B_x", "B_y", "B_z", "V_1", "V_2", "V_3"]. *)
Record Row : Type := mkRow {
  B_x : R; B_y : R; B_z : R;
  V_1 : R; V_2 : R; V_3 : R
}.

Definition field (w : Row) : vec3 := (B_x w, B_y w, B_z w).
Definition voltage (w : Row) : vec3 := (V_1 w, V_2 w, V_3 w).

Definition join_row (b v : vec3) : Row :=
  let '(b0, b1, b2) := b in
  let '(v0, v1, v2) := v in
  mkRow b0 b1 b2 v0 v1 v2.

Fixpoint join_rows (B V : list vec3) : list Row :=
  match B, V with
  | b :: B', v :: V' => join_row b v :: join_rows B' V'
  | _, _ => []
  end.

(** [pd.DataFrame(np.concatenate((B, V), axis=1), columns=[...])]: both
    arrays must be two-dimensional with the same number of rows. *)
Definition concatenate_axis1 (B V : ndarray) : result (list Row) :=
  match B, V with
  | Arr2 b, Arr2 v =>
      if (length b =? length v)%nat then Ok (join_rows b v)
      else Err ValueError
  | _, _ => Err ValueError
  end.

(** The global generator of [np.random], as the sequence of numbers of
    [0, 1) it is going to deliver.  The notebook never seeds it. *)
Definition rng : Type := nat -> R.

Definition advance (k : nat) (g : rng) : rng := fun i => g (i + k)%nat.

(** [np.random.uniform(low, high, (n, 3))]: a negative [n] raises
    [ValueError]; otherwise item [(i, j)] is [low + (high - low) * u]
    for the next number [u] of the generator, rows first. *)
Definition uniform_row (low high : R) (g : rng) (i : nat) : vec3 :=
  (low + (high - low) * g (3 * i)%nat,
   low + (high - low) * g (3 * i + 1)%nat,
   low + (high - low) * g (3 * i + 2)%nat).

Definition uniform (low high : R) (n : Z) (g : rng)
  : result (list vec3 * rng) :=
  if (n <? 0)%Z then Err ValueError
  else Ok (map (uniform_row low high g) (seq 0 (Z.to_nat n)),
           advance (3 * Z.to_nat n) g).

(** ** The notebook *)

(** The sampling parameters: the voltage range [v_range] and the numbers
    of samples [N1] (per dipole), [N2] (random, training) and [N_val]
    (random, validation). *)
Record Params : Type := mkParams {
  v_range : R;
  N1 : Z;
  N2 : Z;
  N_val : Z
}.

(** The values the notebook assigns. *)
Definition notebook_params : Params :=
  {| v_range := 10; N1 := 128; N2 := 1024; N_val := 256 |}.

(** The notebook with a single sample per dipole. *)
Definition single_sample_params : Params :=
  {| v_range := 10; N1 := 1; N2 := 1024; N_val := 256 |}.

(** The notebook with an empty voltage range. *)
Definition zero_range_params : Params :=
  {| v_range := 0; N1 := 128; N2 := 1024; N_val := 256 |}.

(** [V_ind]: voltage applied to a single coil in a linear fashion. *)
Definition V_ind (p : Params) : result (list vec3) :=
  a1 <- linspace (- v_range p) (v_range p) (N1 p);;
  a2 <- zeros (N1 p);;
  a3 <- zeros (N1 p);;
  let V1 := a1 ++ a2 ++ a3 in
  b1 <- zeros (N1 p);;
  b2 <- linspace (- v_range p) (v_range p) (N1 p);;
  b3 <- zeros (N1 p);;
  let V2 := b1 ++ b2 ++ b3 in
  c1 <- zeros (N1 p);;
  c2 <- zeros (N1 p);;
  c3 <- linspace (- v_range p) (v_range p) (N1 p);;
  let V3 := c1 ++ c2 ++ c3 in
  stack_axis1 V1 V2 V3.

(** The dipole magnitudes of the linear case, [V * m]. *)
Definition moment_linear (V : vec3) : vec3 := vmuls V m.

(** The dipole magnitudes of the non-linear case,
    [v_range*np.tanh(V/nf) * m], with [np.tanh] read as the exact
    [tanh]. *)
Definition moment_nonlinear (p : Params) (V : vec3) : vec3 :=
  vmuls (smul (v_range p) (vtanh (vdivs V nf))) m.

(** The loop [for V in Vs: B.append(total_field(r0, V * m, A))]. *)
Definition fields_linear (Vs : list vec3) : list vec3 :=
  map (fun V => total_field r0 (moment_linear V) A) Vs.

(** The loop
    [for V in Vs: B.append(total_field(r0, v_range*np.tanh(V/nf) * m, A))]. *)
Definition fields_nonlinear (p : Params) (Vs : list vec3) : list vec3 :=
  map (fun V => total_field r0 (moment_nonlinear p V) A) Vs.

(** The four data frames of the notebook. *)
Record Datasets : Type := mkDatasets {
  individual_calibration_set : list Row;
  nl_individual_calibration_set : list Row;
  full_calibration_set : list Row;
  val_set : list Row
}.

(** The code cells of the notebook from top to bottom, started with the
    global generator in state [g].  The result is the data frames and
    the state the generator is left in, or the first exception. *)
Definition notebook (p : Params) (g : rng) : result (Datasets * rng) :=
  V_ind <- V_ind p;;
  let B_ind := fields_linear V_ind in
  individual_calibration_set <-
    concatenate_axis1 (of_list B_ind) (Arr2 V_ind);;
  let B_nl_ind := fields_nonlinear p V_ind in
  nl_individual_calibration_set <-
    concatenate_axis1 (of_list B_nl_ind) (Arr2 V_ind);;
  '(V_rand, g) <- uniform (- v_range p) (v_range p) (N2 p) g;;
  let B_rand := fields_nonlinear p V_rand in
  V_full <- concatenate (Arr2 V_ind) (Arr2 V_rand);;
  B_full <- concatenate (of_list B_nl_ind) (of_list B_rand);;
  full_calibration_set <- concatenate_axis1 B_full V_full;;
  '(V_val, g) <- uniform (- v_range p) (v_range p) (N_val p) g;;
  let B_val := fields_nonlinear p V_val in
  val_set <- concatenate_axis1 (of_list B_val) (Arr2 V_val);;
  Ok (mkDatasets individual_calibration_set nl_individual_calibration_set
        full_calibration_set val_set, g).

(** ** Derived notions and the statements of the documentation *)

(** The formula of the field of a dipole as the documentation gives it,
    in coordinates: [mu0 * (3*R*dot(M,R)/|R|^5 - M/|R|^3)] with
    [R = point - pole_position], [M = m * a] and [mu0 = 1e-7]. *)
Definition dipole_formula (point pole_position : vec3) (mm : R) (a : vec3)
  : vec3 :=
  let '(x, y, z) := point in
  let '(x0, y0, z0) := pole_position in
  let '(a0, a1, a2) := a in
  let Rx := x - x0 in
  let Ry := y - y0 in
  let Rz := z - z0 in
  let Mx := mm * a0 in
  let My := mm * a1 in
  let Mz := mm * a2 in
  let MR := Mx * Rx + My * Ry + Mz * Rz in
  let n := sqrt (Rx * Rx + Ry * Ry + Rz * Rz) in
  (1e-7 * (3 * Rx * MR / n ^ 5 - Mx / n ^ 3),
   1e-7 * (3 * Ry * MR / n ^ 5 - My / n ^ 3),
   1e-7 * (3 * Rz * MR / n ^ 5 - Mz / n ^ 3)).

(** What the documentation says of a sweep: [xs] holds [n] evenly spaced
    values from [lo] to [hi] inclusive, in ascending order. *)
Definition evenly_spaced (lo hi : R) (n : nat) (xs : list R) : Prop :=
  length xs = n /\
  nth 0 xs 0 = lo /\
  nth (n - 1) xs 0 = hi /\
  (exists step, forall i, (S i < n)%nat -> nth (S i) xs 0 = nth i xs 0 + step) /\
  (forall i, (S i < n)%nat -> nth i xs 0 < nth (S i) xs 0).

(** What the documentation says of [individual(N)]: [3N] voltage
    vectors, the sweep in coordinate 0 for the indices [0 .. N-1], in
    coordinate 1 for [N .. 2N-1] and in coordinate 2 for [2N .. 3N-1],
    the other coordinates being zero. *)
Definition individual_sweep (p : Params) : Prop :=
  let n := Z.to_nat (N1 p) in
  exists Vs xs,
    V_ind p = Ok Vs /\
    length Vs = (3 * n)%nat /\
    evenly_spaced (- v_range p) (v_range p) n xs /\
    forall i, (i < n)%nat ->
      nth i Vs zero3 = (nth i xs 0, 0, 0) /\
      nth (n + i) Vs zero3 = (0, nth i xs 0, 0) /\
      nth (2 * n + i) Vs zero3 = (0, 0, nth i xs 0).

(** The rows [np.random.uniform(-v_range, v_range, (n, 3))] draws from
    the generator in state [g]. *)
Definition random_rows (p : Params) (n : Z) (g : rng) : list vec3 :=
  map (uniform_row (- v_range p) (v_range p) g) (seq 0 (Z.to_nat n)).

(** The data frame of the voltages [Vs] and the fields [f V]. *)
Definition table (f : vec3 -> vec3) (Vs : list vec3) : list Row :=
  join_rows (map f Vs) Vs.

Definition field_linear (V : vec3) : vec3 :=
  total_field r0 (moment_linear V) A.

Definition field_nonlinear (p : Params) (V : vec3) : vec3 :=
  total_field r0 (moment_nonlinear p V) A.

(** What the documentation asks of a row of a linear data set: the
    stored field is [total_field] at the origin for the dipole
    magnitudes [voltage * scale]. *)
Definition linear_sample (w : Row) : Prop :=
  (B_x w, B_y w, B_z w) =
  total_field (0, 0, 0) (V_1 w * m, V_2 w * m, V_3 w * m) A.

(** What it asks of a row of a non-linear data set: the dipole
    magnitudes are [V_max * tanh(voltage / nonlinearity_factor) * scale]. *)
Definition nonlinear_sample (p : Params) (w : Row) : Prop :=
  (B_x w, B_y w, B_z w) =
  total_field (0, 0, 0)
    (v_range p * tanh (V_1 w / nf) * m,
     v_range p * tanh (V_2 w / nf) * m,
     v_range p * tanh (V_3 w / nf) * m) A.

(** Two vectors agree within [tol] in every coordinate. *)
Definition close (tol : R) (u v : vec3) : Prop :=
  let '(u0, u1, u2) := u in
  let '(v0, v1, v2) := v in
  Rabs (u0 - v0) <= tol /\ Rabs (u1 - v1) <= tol /\ Rabs (u2 - v2) <= tol.

(** The sampling parameters the documentation calls invalid. *)
Definition invalid_params (p : Params) : Prop :=
  (N1 p <= 0)%Z \/ (N2 p <= 0)%Z \/ (N_val p <= 0)%Z \/ v_range p <= 0.

(** The run is stopped by an exception. *)
Definition rejected (p : Params) (g : rng) : Prop :=
  exists e, notebook p g = Err e.

(** The data frames of a run, without the state of the generator. *)
Definition frames (run : result (Datasets * rng)) : result Datasets :=
  '(ds, _) <- run;; Ok ds.

(** What the documentation says of two runs with the same sampling
    parameters: they produce the same data frames.  The sampling
    parameters are all a run takes; the notebook has no seed. *)
Definition reproducible (p : Params) : Prop :=
  forall g1 g2, frames (notebook p g1) = frames (notebook p g2).

(** The validation frame of a run, empty for a run that failed. *)
Definition val_set_of (r : result Datasets) : list Row :=
  match r with
  | Ok ds => val_set ds
  | Err _ => []
  end.

(** The field at the magnetometer as a linear map of the three dipole
    magnitudes, with the positions and the axis of the notebook put in. *)
Definition origin_field (mv : vec3) : vec3 :=
  let '(m1, m2, m3) := mv in
  let c := mu0 / (4 * sqrt 2) in
  (3 * c * (m1 - m2 / 2 - m3 / 2),
   3 * c * (sqrt 3 / 2) * (m2 - m3),
   c * (m1 + m2 + m3)).

(** Every coordinate of [V] lies in [[-v, v]]. *)
Definition in_range (v : R) (V : vec3) : Prop :=
  let '(v0, v1, v2) := V in
  (- v <= v0 <= v) /\ (- v <= v1 <= v) /\ (- v <= v2 <= v).

(** The generator delivers numbers of [[0, 1)]. *)
Definition unit_interval (g : rng) : Prop :=
  forall k, 0 <= g k < 1.

(** Exactly one coil has a voltage that is not zero. *)
Definition single_coil (V : vec3) : Prop :=
  let '(v0, v1, v2) := V in
  (v0 <> 0 /\ v1 = 0 /\ v2 = 0) \/
  (v0 = 0 /\ v1 <> 0 /\ v2 = 0) \/
  (v0 = 0 /\ v1 = 0 /\ v2 <> 0).

(** *** [np.tanh] in float64

    Everywhere else in this file a float64 result is read as the exact
    real number, which differs from the computed one in the last bits.
    For [np.tanh] that reading hides an effect that is not of that
    kind: from an argument of about 19.06 on, [tanh x] is nearer to 1
    than to any other float64 number, and [np.tanh] returns exactly
    [1.0]; likewise [-1.0] on the negative side.  [np_tanh] is [tanh]
    with this saturation: the float64 numbers next to 1 are
    [1 - 2^-53] and 1, so a value of at least [1 - 2^-54] is rounded
    to 1. *)
Definition np_tanh (x : R) : R :=
  if Rle_dec (1 - / 2 ^ 54) (tanh x) then 1
  else if Rle_dec (tanh x) (- (1 - / 2 ^ 54)) then -1
  else tanh x.

(** [np.tanh(v)], elementwise, with the saturation of float64. *)
Definition vnp_tanh (v : vec3) : vec3 :=
  let '(v0, v1, v2) := v in (np_tanh v0, np_tanh v1, np_tanh v2).

(** The dipole magnitudes of the non-linear case,
    [v_range*np.tanh(V/nf) * m], with the saturation of float64. *)
Definition moment_nonlinear_fl (p : Params) (V : vec3) : vec3 :=
  vmuls (smul (v_range p) (vnp_tanh (vdivs V nf))) m.

(** [total_field(r0, v_range*np.tanh(V/nf) * m, A)] with the saturation
    of float64. *)
Definition field_nonlinear_fl (p : Params) (V : vec3) : vec3 :=
  total_field r0 (moment_nonlinear_fl p V) A.

(** * Properties *)

(** ** Vectors and the equality test *)

Lemma Reqb_eq (x y : R) : Reqb x y = true <-> x = y.
Proof.
  unfold Reqb. destruct (Req_dec_T x y); split; intros; congruence.
Qed.

Lemma Reqb_refl (x : R) : Reqb x x = true.
Proof. now apply Reqb_eq. Qed.

Lemma Reqb_neq (x y : R) : x <> y -> Reqb x y = false.
Proof.
  intros H. unfold Reqb. destruct (Req_dec_T x y); [contradiction | reflexivity].
Qed.

Ltac vec_destruct :=
  repeat match goal with
         | v : vec3 |- _ => destruct v as [[? ?] ?]
         end.

(** Equality of triples, coordinate by coordinate. *)
Ltac vec_eq := repeat (f_equal; try (unfold Rdiv; ring)).

Lemma vec3_eq (x y z x' y' z' : R) :
  x = x' -> y = y' -> z = z' -> (x, y, z) = (x', y', z').
Proof. intros -> -> ->. reflexivity. Qed.

Lemma dot_self_nonneg (v : vec3) : 0 <= dot v v.
Proof. vec_destruct. simpl. nra. Qed.

Lemma dot_self_zero (v : vec3) : dot v v = 0 <-> v = zero3.
Proof.
  vec_destruct. unfold zero3. simpl. split.
  - intros H. assert (r = 0) by nra. assert (r1 = 0) by nra.
    assert (r2 = 0) by nra. subst. reflexivity.
  - intros H. injection H as -> -> ->. ring.
Qed.

Lemma vsub_zero (u v : vec3) : vsub u v = zero3 <-> u = v.
Proof.
  vec_destruct. unfold zero3. simpl. split.
  - intros H. injection H as H1 H2 H3. repeat f_equal; lra.
  - intros H. injection H as -> -> ->. repeat f_equal; lra.
Qed.

Lemma vsub_diag (v : vec3) : vsub v v = zero3.
Proof. now apply vsub_zero. Qed.

(** The singularity test of [dipole_field] fires exactly when the field
    point is the dipole position. *)
Lemma singular_iff (r p : vec3) :
  Reqb (dot (vsub r p) (vsub r p)) 0 = true <-> r = p.
Proof.
  rewrite Reqb_eq, dot_self_zero. apply vsub_zero.
Qed.

Lemma dipole_field_singular (p : vec3) (mm : R) (a : vec3) :
  dipole_field p p mm a = zero3.
Proof.
  unfold dipole_field. rewrite vsub_diag.
  replace (dot zero3 zero3) with 0 by (simpl; ring).
  now rewrite Reqb_refl.
Qed.

Lemma dipole_field_regular (r p : vec3) (mm : R) (a : vec3) :
  r <> p ->
  dipole_field r p mm a =
  smul mu0 (vsub (vdivs (vmuls (smul 3 (vsub r p))
                               (dot (smul mm a) (vsub r p)))
                        (mag (vsub r p) ^ 5))
                 (vdivs (smul mm a) (mag (vsub r p) ^ 3))).
Proof.
  intros H. unfold dipole_field.
  destruct (Reqb (dot (vsub r p) (vsub r p)) 0) eqn:E; [|reflexivity].
  apply singular_iff in E. contradiction.
Qed.

(** ** The field of one dipole *)

(** C2: away from the dipole, that is when [dot(R,R) <> 0] for
    [R = point - pole_position], which says that the field point is not
    the dipole position, [dipole_field] returns
    [mu0 * (3*R*dot(M,R)/|R|^5 - M/|R|^3)] with [M = m*a] and
    [mu0 = 1e-7]. *)
Theorem dipole_field_formula (point pole_position : vec3) (mm : R) (a : vec3) :
  dot (vsub point pole_position) (vsub point pole_position) <> 0 ->
  point <> pole_position /\
  dipole_field point pole_position mm a =
  dipole_formula point pole_position mm a.
Proof.
  intros H.
  assert (Hne : point <> pole_position).
  { intros ->. apply H. rewrite vsub_diag. simpl. ring. }
  split; [exact Hne|].
  rewrite dipole_field_regular by exact Hne.
  vec_destruct. reflexivity.
Qed.

Lemma dipole_field_formula_witness :
  dot (vsub r0 R1) (vsub r0 R1) <> 0 /\
  r0 <> R1 /\ dipole_field r0 R1 1 A = dipole_formula r0 R1 1 A.
Proof.
  assert (H : dot (vsub r0 R1) (vsub r0 R1) <> 0)
    by (unfold r0, R1; simpl; lra).
  split; [exact H | exact (dipole_field_formula r0 R1 1 A H)].
Defined.

(** C3: at the position of the dipole itself [dipole_field] returns the
    zero vector, whatever the magnitude and the axis; the call returns a
    value, there is no exception in [dipole_field]. *)
Theorem dipole_field_at_pole (pole_position : vec3) (mm : R) (a : vec3) :
  dipole_field pole_position pole_position mm a = (0, 0, 0).
Proof. apply dipole_field_singular. Qed.

(** ** Linearity in the dipole magnitudes *)

Lemma dipole_field_scale (r p : vec3) (c mm : R) (a : vec3) :
  dipole_field r p (c * mm) a = smul c (dipole_field r p mm a).
Proof.
  unfold dipole_field.
  destruct (Reqb (dot (vsub r p) (vsub r p)) 0).
  - unfold zero3. simpl. vec_eq.
  - vec_destruct. simpl. vec_eq.
Qed.

Lemma dipole_field_plus (r p : vec3) (m1 m2 : R) (a : vec3) :
  dipole_field r p (m1 + m2) a =
  vadd (dipole_field r p m1 a) (dipole_field r p m2 a).
Proof.
  unfold dipole_field.
  destruct (Reqb (dot (vsub r p) (vsub r p)) 0).
  - unfold zero3. simpl. vec_eq.
  - vec_destruct. simpl. vec_eq.
Qed.

Lemma dipole_field_zero_moment (r p a : vec3) :
  dipole_field r p 0 a = zero3.
Proof.
  replace 0 with (0 * 0) by ring. rewrite dipole_field_scale.
  destruct (dipole_field r p 0 a) as [[x y] z]. unfold zero3. simpl. vec_eq.
Qed.

Lemma vadd_zero_l (v : vec3) : vadd zero3 v = v.
Proof. vec_destruct. unfold zero3. simpl. vec_eq. Qed.

Lemma vadd_zero_r (v : vec3) : vadd v zero3 = v.
Proof. vec_destruct. unfold zero3. simpl. vec_eq. Qed.

Lemma item_smul (c : R) (v : vec3) (i : nat) :
  item (smul c v) i = c * item v i.
Proof. vec_destruct. destruct i as [|[|i]]; reflexivity. Qed.

Lemma item_vadd (u v : vec3) (i : nat) :
  item (vadd u v) i = item u i + item v i.
Proof. vec_destruct. destruct i as [|[|i]]; reflexivity. Qed.

(** C10: [total_field] is linear in the array of dipole magnitudes:
    it commutes with scaling the array and with adding two arrays, at
    every point [r], also at the position of a dipole; the zero array
    gives the zero field. *)
Theorem total_field_linear (r a : vec3) (c : R) (mv mv' : vec3) :
  total_field r (smul c mv) a = smul c (total_field r mv a) /\
  total_field r (vadd mv mv') a =
    vadd (total_field r mv a) (total_field r mv' a) /\
  total_field r zero3 a = zero3.
Proof.
  unfold total_field. split; [|split].
  - rewrite !item_smul, !dipole_field_scale.
    destruct (dipole_field r R1 (item mv 0) a) as [[x1 y1] z1].
    destruct (dipole_field r R2 (item mv 1) a) as [[x2 y2] z2].
    destruct (dipole_field r R3 (item mv 2) a) as [[x3 y3] z3].
    simpl. vec_eq.
  - rewrite !item_vadd, !dipole_field_plus.
    destruct (dipole_field r R1 (item mv 0) a) as [[x1 y1] z1].
    destruct (dipole_field r R2 (item mv 1) a) as [[x2 y2] z2].
    destruct (dipole_field r R3 (item mv 2) a) as [[x3 y3] z3].
    destruct (dipole_field r R1 (item mv' 0) a) as [[u1 v1] w1].
    destruct (dipole_field r R2 (item mv' 1) a) as [[u2 v2] w2].
    destruct (dipole_field r R3 (item mv' 2) a) as [[u3 v3] w3].
    simpl. vec_eq.
  - change (item zero3 0) with 0. change (item zero3 1) with 0.
    change (item zero3 2) with 0.
    rewrite !dipole_field_zero_moment. now rewrite !vadd_zero_l.
Qed.

(** ** From voltages to dipole magnitudes *)

(** C5: in the linear case the dipole magnitude of a coil is its voltage
    times the scaling factor [m = 1e8]; doubling the voltages doubles
    the magnitudes, and zero voltages give zero magnitudes. *)
Theorem moment_linear_proportional (V : vec3) (i : nat) :
  item (moment_linear V) i = item V i * 1e8 /\
  moment_linear (smul 2 V) = smul 2 (moment_linear V) /\
  moment_linear zero3 = zero3.
Proof.
  unfold moment_linear, zero3. vec_destruct. split; [|split].
  - destruct i as [|[|i]]; reflexivity.
  - simpl. vec_eq.
  - simpl. vec_eq.
Qed.

(** *** The hyperbolic tangent *)

Lemma exp_opp_mul (x : R) : exp x * exp (- x) = 1.
Proof. rewrite <- exp_plus, Rplus_opp_r. apply exp_0. Qed.

Lemma tanh_exp (x : R) :
  tanh x = (exp x - exp (- x)) / (exp x + exp (- x)).
Proof.
  unfold tanh, sinh, cosh.
  pose proof (exp_pos x). pose proof (exp_pos (- x)).
  field. lra.
Qed.

Lemma tanh_0 : tanh 0 = 0.
Proof. unfold tanh. rewrite sinh_0. unfold Rdiv. ring. Qed.

Lemma tanh_opp (x : R) : tanh (- x) = - tanh x.
Proof.
  rewrite !tanh_exp, Ropp_involutive.
  pose proof (exp_pos x). pose proof (exp_pos (- x)).
  field. lra.
Qed.

Lemma tanh_bounds (x : R) : -1 < tanh x < 1.
Proof.
  rewrite tanh_exp.
  pose proof (exp_pos x) as He. pose proof (exp_pos (- x)) as Hf.
  assert (Hs : 0 < exp x + exp (- x)) by lra.
  split.
  - apply Rmult_lt_reg_r with (exp x + exp (- x)); [exact Hs|].
    unfold Rdiv. rewrite Rmult_assoc, Rinv_l by lra. lra.
  - apply Rmult_lt_reg_r with (exp x + exp (- x)); [exact Hs|].
    unfold Rdiv. rewrite Rmult_assoc, Rinv_l by lra. lra.
Qed.

Lemma item_moment_nonlinear (p : Params) (V : vec3) (i : nat) :
  item (moment_nonlinear p V) i = v_range p * tanh (item V i / nf) * m.
Proof.
  unfold moment_nonlinear. vec_destruct.
  destruct i as [|[|i]]; reflexivity.
Qed.

(** ** The numpy functions *)

Lemma length_set_last (y : list R) (stop : R) :
  length (set_last y stop) = length y.
Proof.
  induction y as [|x [|x' y'] IH]; try reflexivity.
  change (S (length (set_last (x' :: y') stop)) = S (length (x' :: y'))).
  now rewrite IH.
Qed.

Lemma nth_set_last (y : list R) (stop d : R) (i : nat) :
  (i < length y)%nat ->
  nth i (set_last y stop) d = if (S i =? length y)%nat then stop else nth i y d.
Proof.
  revert i. induction y as [|x [|x' y'] IH]; intros i Hi.
  - simpl in Hi. lia.
  - simpl in Hi. assert (i = 0%nat) by lia. subst. reflexivity.
  - change (set_last (x :: x' :: y') stop)
      with (x :: set_last (x' :: y') stop).
    destruct i as [|i].
    + reflexivity.
    + change (nth i (set_last (x' :: y') stop) d =
              if (S i =? length (x' :: y'))%nat then stop
              else nth i (x' :: y') d).
      apply IH. simpl in *. lia.
Qed.

(** The array [np.linspace(start, stop, num)] for [num >= 0]. *)
Lemma linspace_ok (start stop : R) (num : Z) :
  (0 <= num)%Z ->
  exists xs,
    linspace start stop num = Ok xs /\
    length xs = Z.to_nat num /\
    (num = 1%Z -> xs = [start]) /\
    ((2 <= num)%Z ->
     forall i, (i < Z.to_nat num)%nat ->
       nth i xs 0 = start + INR i * ((stop - start) / IZR (num - 1))).
Proof.
  intros Hnum. unfold linspace.
  destruct (Z.ltb_spec num 0) as [Hneg|_]; [lia|].
  eexists. split; [reflexivity|]. split; [|split].
  - destruct (Z.ltb_spec 1 num);
      rewrite ?length_set_last, length_map;
      destruct (Z.ltb_spec 0 (num - 1));
      now rewrite !length_map, length_seq.
  - intros ->. simpl. f_equal. ring.
  - intros H2 i Hi.
    destruct (Z.ltb_spec 1 num) as [_|]; [|lia].
    destruct (Z.ltb_spec 0 (num - 1)) as [_|]; [|lia].
    rewrite nth_set_last by (now rewrite !length_map, length_seq).
    rewrite !length_map, length_seq.
    assert (Hd : IZR (num - 1) <> 0) by (apply not_0_IZR; lia).
    destruct (Nat.eqb_spec (S i) (Z.to_nat num)) as [Hlast|Hmid].
    + assert (Hi' : INR i = IZR (num - 1)).
      { rewrite INR_IZR_INZ. f_equal. lia. }
      rewrite Hi'. field. exact Hd.
    + rewrite !map_map.
      set (f := fun x : nat => INR x * ((stop - start) / IZR (num - 1)) + start).
      rewrite nth_indep with (d' := f 0%nat)
        by (now rewrite length_map, length_seq).
      rewrite map_nth, seq_nth by exact Hi. unfold f. simpl. ring.
Qed.

Lemma linspace_negative (start stop : R) (num : Z) :
  (num < 0)%Z -> linspace start stop num = Err ValueError.
Proof.
  intros H. unfold linspace. destruct (Z.ltb_spec num 0); [reflexivity | lia].
Qed.

Lemma zeros_ok (n : Z) :
  (0 <= n)%Z -> zeros n = Ok (repeat 0 (Z.to_nat n)).
Proof.
  intros H. unfold zeros. destruct (Z.ltb_spec n 0); [lia | reflexivity].
Qed.

Lemma length_stack_rows (c1 c2 c3 : list R) :
  length c1 = length c2 -> length c2 = length c3 ->
  length (stack_rows c1 c2 c3) = length c1.
Proof.
  revert c2 c3. induction c1 as [|x c1 IH]; intros [|y c2] [|z c3] H1 H2;
    simpl in *; try lia.
  f_equal. apply IH; lia.
Qed.

Lemma nth_stack_rows (c1 c2 c3 : list R) (i : nat) :
  (i < length c1)%nat -> (i < length c2)%nat -> (i < length c3)%nat ->
  nth i (stack_rows c1 c2 c3) zero3 = (nth i c1 0, nth i c2 0, nth i c3 0).
Proof.
  revert c2 c3 i. induction c1 as [|x c1 IH]; intros [|y c2] [|z c3] i H1 H2 H3;
    simpl in *; try lia.
  destruct i as [|i]; [reflexivity|]. apply IH; lia.
Qed.

(** ** The sweep over single coils *)

Lemma nth_blocks (a b c : list R) (n i : nat) :
  length a = n -> length b = n -> length c = n -> (i < n)%nat ->
  nth i (a ++ b ++ c) 0 = nth i a 0 /\
  nth (n + i) (a ++ b ++ c) 0 = nth i b 0 /\
  nth (2 * n + i) (a ++ b ++ c) 0 = nth i c 0.
Proof.
  intros Ha Hb Hc Hi. split; [|split].
  - apply app_nth1. lia.
  - rewrite <- Ha at 1. rewrite app_nth2_plus. apply app_nth1. lia.
  - replace (2 * n + i)%nat with (length a + (length b + i))%nat by lia.
    now rewrite !app_nth2_plus.
Qed.

(** The array [V_ind] for a sample number that numpy accepts. *)
Lemma V_ind_ok (p : Params) :
  (0 <= N1 p)%Z ->
  exists xs,
    linspace (- v_range p) (v_range p) (N1 p) = Ok xs /\
    length xs = Z.to_nat (N1 p) /\
    V_ind p =
    Ok (let z := repeat 0 (Z.to_nat (N1 p)) in
        stack_rows (xs ++ z ++ z) (z ++ xs ++ z) (z ++ z ++ xs)).
Proof.
  intros HN.
  destruct (linspace_ok (- v_range p) (v_range p) (N1 p) HN)
    as (xs & Hl & Hlen & _).
  exists xs. split; [exact Hl|]. split; [exact Hlen|].
  unfold V_ind. rewrite Hl, zeros_ok by exact HN. cbn [bind].
  unfold stack_axis1.
  rewrite !length_app, !repeat_length, Hlen, !Nat.eqb_refl.
  reflexivity.
Qed.

Lemma V_ind_negative (p : Params) :
  (N1 p < 0)%Z -> V_ind p = Err ValueError.
Proof.
  intros H. unfold V_ind. now rewrite linspace_negative.
Qed.

(** The number of rows of [V_ind] and its rows. *)
Lemma V_ind_rows (p : Params) (xs : list R) (Vs : list vec3) :
  (0 <= N1 p)%Z ->
  linspace (- v_range p) (v_range p) (N1 p) = Ok xs ->
  V_ind p = Ok Vs ->
  let n := Z.to_nat (N1 p) in
  length Vs = (3 * n)%nat /\
  forall i, (i < n)%nat ->
    nth i Vs zero3 = (nth i xs 0, 0, 0) /\
    nth (n + i) Vs zero3 = (0, nth i xs 0, 0) /\
    nth (2 * n + i) Vs zero3 = (0, 0, nth i xs 0).
Proof.
  intros HN Hl HV n.
  destruct (V_ind_ok p HN) as (xs' & Hl' & Hlen & HV').
  rewrite Hl in Hl'. injection Hl' as <-.
  rewrite HV in HV'. injection HV' as ->.
  fold n in Hlen |- *.
  set (z := repeat 0 n).
  assert (Hz : length z = n) by apply repeat_length.
  assert (Hz0 : forall i, nth i z 0 = 0) by (intros i; apply nth_repeat).
  split.
  - rewrite length_stack_rows; rewrite !length_app, ?Hz, ?Hlen; lia.
  - intros i Hi.
    destruct (nth_blocks xs z z n i Hlen Hz Hz Hi) as (A1 & A2 & A3).
    destruct (nth_blocks z xs z n i Hz Hlen Hz Hi) as (B1 & B2 & B3).
    destruct (nth_blocks z z xs n i Hz Hz Hlen Hi) as (C1 & C2 & C3).
    repeat split.
    + rewrite nth_stack_rows by (rewrite !length_app, ?Hz, ?Hlen; lia).
      now rewrite A1, B1, C1, !Hz0.
    + rewrite nth_stack_rows by (rewrite !length_app, ?Hz, ?Hlen; lia).
      now rewrite A2, B2, C2, !Hz0.
    + rewrite nth_stack_rows by (rewrite !length_app, ?Hz, ?Hlen; lia).
      now rewrite A3, B3, C3, !Hz0.
Qed.

(** With a single sample per coil the sweep is the lower end of the
    range alone. *)
Lemma V_ind_single (p : Params) :
  N1 p = 1%Z ->
  V_ind p = Ok [(- v_range p, 0, 0); (0, - v_range p, 0); (0, 0, - v_range p)].
Proof.
  intros H1.
  assert (HN : (0 <= N1 p)%Z) by lia.
  destruct (linspace_ok (- v_range p) (v_range p) (N1 p) HN)
    as (xs & Hl & _ & Hone & _).
  specialize (Hone H1). subst xs.
  destruct (V_ind_ok p HN) as (xs' & Hl' & _ & HV).
  rewrite Hl in Hl'. injection Hl' as <-.
  rewrite HV, H1. reflexivity.
Qed.

(** C6, as the code has it: for two or more samples per coil and a
    positive voltage range, [V_ind] holds three blocks of [N1] rows, the
    evenly spaced ascending values from [-v_range] to [v_range] in the
    coordinate of the block and zeros elsewhere; for a single sample per
    coil it holds the three rows that carry [-v_range]. *)
Theorem V_ind_sweep (p : Params) :
  0 < v_range p ->
  ((2 <= N1 p)%Z -> individual_sweep p) /\
  (N1 p = 1%Z ->
   V_ind p =
   Ok [(- v_range p, 0, 0); (0, - v_range p, 0); (0, 0, - v_range p)]).
Proof.
  intros Hv. split; [|apply V_ind_single].
  intros H2.
  assert (HN : (0 <= N1 p)%Z) by lia.
  destruct (linspace_ok (- v_range p) (v_range p) (N1 p) HN)
    as (xs & Hl & Hlen & _ & Hnth).
  specialize (Hnth H2).
  destruct (V_ind_ok p HN) as (xs' & Hl' & _ & HV).
  rewrite Hl in Hl'. injection Hl' as <-.
  destruct (V_ind_rows p xs _ HN Hl HV) as (Hrows & Hitems).
  unfold individual_sweep.
  eexists. exists xs. split; [exact HV|]. split; [exact Hrows|].
  split; [|exact Hitems].
  set (n := Z.to_nat (N1 p)) in *.
  assert (Hd : 0 < IZR (N1 p - 1)) by (apply IZR_lt; lia).
  assert (Hstep : 0 < (v_range p - - v_range p) / IZR (N1 p - 1)).
  { apply Rdiv_lt_0_compat; lra. }
  unfold evenly_spaced. split; [exact Hlen|]. split; [|split; [|split]].
  - rewrite Hnth by lia. simpl. ring.
  - rewrite Hnth by lia.
    assert (Hi : INR (n - 1) = IZR (N1 p - 1)).
    { rewrite INR_IZR_INZ. f_equal. lia. }
    rewrite Hi. field. lra.
  - exists ((v_range p - - v_range p) / IZR (N1 p - 1)).
    intros i Hi. rewrite !Hnth by lia. rewrite S_INR. ring.
  - intros i Hi. rewrite !Hnth by lia. rewrite S_INR. lra.
Qed.

Lemma V_ind_sweep_witness :
  0 < v_range notebook_params /\ (2 <= N1 notebook_params)%Z /\
  individual_sweep notebook_params.
Proof.
  assert (Hv : 0 < v_range notebook_params) by (simpl; lra).
  assert (H2 : (2 <= N1 notebook_params)%Z) by (simpl; lia).
  split; [exact Hv|]. split; [exact H2|].
  exact (proj1 (V_ind_sweep notebook_params Hv) H2).
Defined.

(** C6 as the documentation has it fails for a single sample per coil:
    [np.linspace(-10, 10, 1)] is [[-10.]], so the upper end of the range
    is not among the values. *)
Lemma V_ind_sweep_single_sample :
  (0 < N1 single_sample_params)%Z /\ ~ individual_sweep single_sample_params.
Proof.
  split; [simpl; lia|].
  intros (Vs & xs & HV & _ & Hev & Hitems).
  rewrite V_ind_single in HV by reflexivity. injection HV as <-.
  destruct Hev as (_ & _ & Hhi & _).
  destruct (Hitems 0%nat) as (H0 & _); [simpl; lia|].
  simpl in H0, Hhi. injection H0 as H0. lra.
Qed.

(** ** The run of the notebook *)

Lemma of_list_nonempty (l : list vec3) : l <> [] -> of_list l = Arr2 l.
Proof. destruct l; [congruence | reflexivity]. Qed.

Lemma map_nonempty (f : vec3 -> vec3) (l : list vec3) :
  l <> [] -> map f l <> [].
Proof. destruct l; [congruence | discriminate]. Qed.

Lemma concatenate_axis1_table (f : vec3 -> vec3) (Vs : list vec3) :
  Vs <> [] ->
  concatenate_axis1 (of_list (map f Vs)) (Arr2 Vs) = Ok (table f Vs).
Proof.
  intros H. rewrite of_list_nonempty by (apply map_nonempty; exact H).
  unfold concatenate_axis1. now rewrite length_map, Nat.eqb_refl.
Qed.

Lemma uniform_ok (p : Params) (n : Z) (g : rng) :
  (0 <= n)%Z ->
  uniform (- v_range p) (v_range p) n g =
  Ok (random_rows p n g, advance (3 * Z.to_nat n) g).
Proof.
  intros H. unfold uniform. destruct (Z.ltb_spec n 0); [lia | reflexivity].
Qed.

Lemma random_rows_nonempty (p : Params) (n : Z) (g : rng) :
  (0 < n)%Z -> random_rows p n g <> [].
Proof.
  intros H. unfold random_rows.
  destruct (Z.to_nat n) as [|k] eqn:E; [lia | discriminate].
Qed.

Lemma random_rows_empty (p : Params) (g : rng) : random_rows p 0 g = [].
Proof. reflexivity. Qed.

Lemma length_random_rows (p : Params) (n : Z) (g : rng) :
  length (random_rows p n g) = Z.to_nat n.
Proof. unfold random_rows. now rewrite length_map, length_seq. Qed.

Lemma V_ind_length (p : Params) (Vs : list vec3) :
  V_ind p = Ok Vs -> (0 <= N1 p)%Z /\ length Vs = (3 * Z.to_nat (N1 p))%nat.
Proof.
  intros HV.
  destruct (Z.lt_ge_cases (N1 p) 0) as [Hneg|HN].
  - rewrite V_ind_negative in HV by exact Hneg. discriminate.
  - split; [exact HN|].
    destruct (V_ind_ok p HN) as (xs & Hl & _ & _).
    exact (proj1 (V_ind_rows p xs Vs HN Hl HV)).
Qed.

(** With positive sample numbers every cell of the notebook runs, and
    these are the data frames. *)
Lemma notebook_succeeds (p : Params) (g : rng) :
  (0 < N1 p)%Z -> (0 < N2 p)%Z -> (0 < N_val p)%Z ->
  exists Vi,
    V_ind p = Ok Vi /\
    length Vi = (3 * Z.to_nat (N1 p))%nat /\
    let g1 := advance (3 * Z.to_nat (N2 p)) g in
    let Vr := random_rows p (N2 p) g in
    let Vv := random_rows p (N_val p) g1 in
    notebook p g =
    Ok ({| individual_calibration_set := table field_linear Vi;
           nl_individual_calibration_set := table (field_nonlinear p) Vi;
           full_calibration_set := table (field_nonlinear p) (Vi ++ Vr);
           val_set := table (field_nonlinear p) Vv |},
        advance (3 * Z.to_nat (N_val p)) g1).
Proof.
  intros H1 H2 H3.
  destruct (V_ind_ok p) as (xs & Hl & _ & HV); [lia|].
  destruct (V_ind_length p _ HV) as (_ & Hlen).
  eexists. split; [exact HV|]. split; [exact Hlen|].
  intros g1 Vr Vv.
  set (Vi := stack_rows _ _ _) in *. cbv zeta in HV, Hlen. fold Vi in HV, Hlen.
  assert (HVi : Vi <> []).
  { intros E. rewrite E in Hlen. simpl in Hlen. lia. }
  assert (HVr : Vr <> []) by (apply random_rows_nonempty; exact H2).
  assert (HVv : Vv <> []) by (apply random_rows_nonempty; exact H3).
  unfold notebook. rewrite HV. cbn [bind].
  unfold fields_linear, fields_nonlinear.
  rewrite !concatenate_axis1_table by exact HVi. cbn [bind].
  rewrite uniform_ok by lia. cbn [bind]. fold Vr g1.
  rewrite !of_list_nonempty by (apply map_nonempty; assumption).
  cbn [bind concatenate]. rewrite <- map_app.
  assert (HVf : Vi ++ Vr <> []).
  { intros E. apply app_eq_nil in E. destruct E; contradiction. }
  unfold concatenate_axis1 at 1. rewrite length_map, Nat.eqb_refl. cbn [bind].
  rewrite uniform_ok by lia. cbn [bind]. fold Vv.
  rewrite concatenate_axis1_table by exact HVv. cbn [bind].
  reflexivity.
Qed.

Lemma uniform_negative (lo hi : R) (n : Z) (g : rng) :
  (n < 0)%Z -> uniform lo hi n g = Err ValueError.
Proof.
  intros H. unfold uniform. destruct (Z.ltb_spec n 0); [reflexivity | lia].
Qed.

(** With no sample per dipole [V_ind] is the empty array of shape (0, 3). *)
Lemma V_ind_empty (p : Params) : N1 p = 0%Z -> V_ind p = Ok [].
Proof.
  intros H0.
  destruct (V_ind_ok p) as (xs & _ & Hlen & HV); [lia|].
  rewrite H0 in Hlen. destruct xs; [|discriminate].
  rewrite HV, H0. reflexivity.
Qed.

(** A sample number that is not positive stops the notebook with an
    exception. *)
Lemma notebook_fails (p : Params) (g : rng) :
  (N1 p <= 0)%Z \/ (N2 p <= 0)%Z \/ (N_val p <= 0)%Z ->
  notebook p g = Err ValueError.
Proof.
  intros H. unfold notebook.
  destruct (Z.lt_trichotomy (N1 p) 0) as [Hn|[Hz|Hp]].
  { now rewrite V_ind_negative. }
  { now rewrite V_ind_empty. }
  destruct (V_ind_ok p) as (xs & _ & _ & HV); [lia|].
  destruct (V_ind_length p _ HV) as (_ & Hlen).
  set (Vi := stack_rows _ _ _) in *. cbv zeta in HV, Hlen. fold Vi in HV, Hlen.
  assert (HVi : Vi <> []).
  { intros E. rewrite E in Hlen. simpl in Hlen. lia. }
  rewrite HV. cbn [bind]. unfold fields_linear, fields_nonlinear.
  rewrite !concatenate_axis1_table by exact HVi. cbn [bind].
  destruct (Z.lt_trichotomy (N2 p) 0) as [Hn|[Hz|Hp2]].
  { now rewrite uniform_negative. }
  { rewrite uniform_ok, Hz by lia. cbn [bind].
    rewrite random_rows_empty.
    rewrite of_list_nonempty by (apply map_nonempty; exact HVi).
    reflexivity. }
  rewrite uniform_ok by lia. cbn [bind].
  pose proof (random_rows_nonempty p (N2 p) g Hp2) as HVr.
  rewrite !of_list_nonempty by (apply map_nonempty; assumption).
  cbn [bind concatenate]. rewrite <- map_app.
  unfold concatenate_axis1 at 1. rewrite length_map, Nat.eqb_refl. cbn [bind].
  destruct (Z.lt_trichotomy (N_val p) 0) as [Hn|[Hz|Hp3]].
  { now rewrite uniform_negative. }
  { rewrite uniform_ok, Hz by lia. cbn [bind].
    rewrite random_rows_empty. reflexivity. }
  lia.
Qed.

(** The data frames of a run that reached the end. *)
Lemma notebook_inv (p : Params) (g g' : rng) (ds : Datasets) :
  notebook p g = Ok (ds, g') ->
  (0 < N1 p)%Z /\ (0 < N2 p)%Z /\ (0 < N_val p)%Z /\
  exists Vi,
    V_ind p = Ok Vi /\
    let g1 := advance (3 * Z.to_nat (N2 p)) g in
    let Vr := random_rows p (N2 p) g in
    let Vv := random_rows p (N_val p) g1 in
    ds = {| individual_calibration_set := table field_linear Vi;
            nl_individual_calibration_set := table (field_nonlinear p) Vi;
            full_calibration_set := table (field_nonlinear p) (Vi ++ Vr);
            val_set := table (field_nonlinear p) Vv |}.
Proof.
  intros Hrun.
  assert (Hpos : (0 < N1 p)%Z /\ (0 < N2 p)%Z /\ (0 < N_val p)%Z).
  { destruct (Z.lt_ge_cases 0 (N1 p)), (Z.lt_ge_cases 0 (N2 p)),
      (Z.lt_ge_cases 0 (N_val p)); try (repeat split; assumption);
      rewrite notebook_fails in Hrun by lia; discriminate. }
  destruct Hpos as (H1 & H2 & H3). repeat (split; [assumption|]).
  destruct (notebook_succeeds p g H1 H2 H3) as (Vi & HV & _ & Hok).
  exists Vi. split; [exact HV|]. cbv zeta in Hok |- *.
  rewrite Hok in Hrun. now injection Hrun as <- _.
Qed.

(** ** The rows of the data frames *)

Lemma table_Forall (f : vec3 -> vec3) (Vs : list vec3) :
  Forall (fun w => field w = f (voltage w)) (table f Vs).
Proof.
  unfold table. induction Vs as [|V Vs IH]; [constructor|].
  simpl. constructor; [|exact IH].
  destruct V as [[v0 v1] v2]. destruct (f (v0, v1, v2)) as [[b0 b1] b2] eqn:E.
  unfold field, voltage. simpl. now rewrite E.
Qed.

Lemma table_linear (Vs : list vec3) :
  Forall linear_sample (table field_linear Vs).
Proof.
  eapply Forall_impl; [|apply table_Forall].
  intros w H. exact H.
Qed.

Lemma table_nonlinear (p : Params) (Vs : list vec3) :
  Forall (nonlinear_sample p) (table (field_nonlinear p) Vs).
Proof.
  eapply Forall_impl; [|apply table_Forall].
  intros w H. exact H.
Qed.

Lemma length_table (f : vec3 -> vec3) (Vs : list vec3) :
  length (table f Vs) = length Vs.
Proof.
  unfold table. induction Vs as [|V Vs IH]; [reflexivity|].
  simpl. now rewrite IH.
Qed.

(** C1: in every data frame a run of the notebook produces, the field
    columns of each row are [total_field] at the origin for the dipole
    magnitudes that the mode of the data frame derives from the voltage
    columns of that row: [voltage * m] for the linear one,
    [v_range * tanh(voltage / nf) * m] for the three non-linear ones. *)
Theorem datasets_rows (p : Params) (g g' : rng) (ds : Datasets) :
  notebook p g = Ok (ds, g') ->
  Forall linear_sample (individual_calibration_set ds) /\
  Forall (nonlinear_sample p) (nl_individual_calibration_set ds) /\
  Forall (nonlinear_sample p) (full_calibration_set ds) /\
  Forall (nonlinear_sample p) (val_set ds).
Proof.
  intros Hrun.
  destruct (notebook_inv p g g' ds Hrun) as (_ & _ & _ & Vi & _ & ->).
  cbn [individual_calibration_set nl_individual_calibration_set
       full_calibration_set val_set].
  repeat split; first [apply table_linear | apply table_nonlinear].
Qed.

Lemma datasets_rows_witness :
  exists ds g',
    notebook notebook_params (fun _ => 0) = Ok (ds, g') /\
    individual_calibration_set ds <> [] /\
    Forall linear_sample (individual_calibration_set ds) /\
    Forall (nonlinear_sample notebook_params)
      (nl_individual_calibration_set ds) /\
    Forall (nonlinear_sample notebook_params) (full_calibration_set ds) /\
    Forall (nonlinear_sample notebook_params) (val_set ds).
Proof.
  destruct (notebook_succeeds notebook_params (fun _ => 0))
    as (Vi & _ & Hlen & Hok); try (simpl; lia).
  cbv zeta in Hok.
  eexists. eexists. split; [exact Hok|]. split.
  - cbn [individual_calibration_set]. intros E.
    apply (f_equal (@length Row)) in E. rewrite length_table, Hlen in E.
    simpl in E. lia.
  - exact (datasets_rows notebook_params _ _ _ Hok).
Defined.

(** ** The worked example *)

Lemma sqrt2_bounds : 1.414 < sqrt 2 < 1.4144.
Proof.
  assert (H0 : 0 <= sqrt 2) by apply sqrt_pos.
  assert (H2 : sqrt 2 * sqrt 2 = 2) by (apply sqrt_def; lra).
  split; nra.
Qed.

Lemma mu0_value : mu0 = / 10000000.
Proof. unfold mu0. lra. Qed.

Lemma m_value : m = 100000000.
Proof. unfold m. lra. Qed.

Lemma r0_neq_R1 : r0 <> R1.
Proof.
  intros H. apply (f_equal (fun v : vec3 => fst (fst v))) in H.
  unfold r0, R1 in H. simpl in H. lra.
Qed.

(** The field at the origin when only the first dipole is driven. *)
Lemma total_field_first (v : R) :
  total_field r0 (moment_linear (v, 0, 0)) A =
  (15 / 2 * v / sqrt 2, 0, 5 / 2 * v / sqrt 2).
Proof.
  unfold total_field, moment_linear. cbn [vmuls item].
  rewrite !Rmult_0_l, !dipole_field_zero_moment, !vadd_zero_r.
  rewrite dipole_field_regular by exact r0_neq_R1.
  assert (Hmag : mag (vsub r0 R1) = sqrt 2).
  { unfold mag. f_equal. unfold r0, R1. simpl. ring. }
  rewrite Hmag.
  pose proof sqrt2_bounds as [Hlo _].
  assert (H2 : sqrt 2 * sqrt 2 = 2) by (apply sqrt_def; lra).
  assert (H3 : sqrt 2 ^ 3 = 2 * sqrt 2).
  { replace (sqrt 2 ^ 3) with (sqrt 2 * sqrt 2 * sqrt 2) by ring.
    now rewrite H2. }
  assert (H5 : sqrt 2 ^ 5 = 4 * sqrt 2).
  { replace (sqrt 2 ^ 5) with (sqrt 2 * sqrt 2 * (sqrt 2 * sqrt 2) * sqrt 2)
      by ring.
    rewrite H2. ring. }
  rewrite H3, H5, mu0_value. unfold r0, R1, A. simpl. rewrite m_value.
  apply vec3_eq; field; lra.
Qed.

(** C7: with the values of the notebook ([v_range = 10], [N1 = 128],
    [mu0 = 1e-7], [m = 1e8]) the first row of the linear data frame has
    the voltages [(-10, 0, 0)], and its field is
    [(-53.033, 0.0, -17.678)] within [1e-2] in every coordinate. *)
Theorem worked_example (g : rng) :
  exists ds g' w,
    notebook notebook_params g = Ok (ds, g') /\
    nth_error (individual_calibration_set ds) 0 = Some w /\
    voltage w = (-10, 0, 0) /\
    field w = total_field r0 (moment_linear (-10, 0, 0)) A /\
    close 1e-2 (field w) (-53.033, 0, -17.678).
Proof.
  destruct (notebook_succeeds notebook_params g)
    as (Vi & HV & Hlen & Hok); try (simpl; lia).
  cbv zeta in Hok.
  destruct (linspace_ok (- v_range notebook_params) (v_range notebook_params)
              (N1 notebook_params)) as (xs & Hl & _ & _ & Hnth);
    [simpl; lia|].
  destruct (V_ind_rows notebook_params xs Vi) as (_ & Hrows);
    [simpl; lia | exact Hl | exact HV |].
  destruct (Hrows 0%nat) as (Hrow0 & _); [simpl; lia|].
  rewrite Hnth in Hrow0 by (simpl; lia).
  destruct Vi as [|V0 Vi]; [simpl in Hlen; lia|].
  simpl in Hrow0.
  assert (HV0 : V0 = (-10, 0, 0)).
  { rewrite Hrow0. apply vec3_eq; lra. }
  clear Hrow0. subst V0.
  exists {|
      individual_calibration_set :=
        table field_linear ((-10, 0, 0) :: Vi);
      nl_individual_calibration_set :=
        table (field_nonlinear notebook_params) ((-10, 0, 0) :: Vi);
      full_calibration_set :=
        table (field_nonlinear notebook_params)
          (((-10, 0, 0) :: Vi) ++
           random_rows notebook_params (N2 notebook_params) g);
      val_set :=
        table (field_nonlinear notebook_params)
          (random_rows notebook_params (N_val notebook_params)
             (advance (3 * Z.to_nat (N2 notebook_params)) g)) |}.
  eexists. exists (join_row (field_linear (-10, 0, 0)) (-10, 0, 0)).
  split; [exact Hok|]. split; [reflexivity|].
  assert (Hf : field_linear (-10, 0, 0) =
               (15 / 2 * -10 / sqrt 2, 0, 5 / 2 * -10 / sqrt 2))
    by apply total_field_first.
  unfold field, voltage. rewrite Hf. cbn [join_row B_x B_y B_z V_1 V_2 V_3].
  split; [reflexivity|]. split; [symmetry; apply total_field_first|].
  pose proof sqrt2_bounds as [Hlo Hhi].
  assert (Hs : 0 < sqrt 2) by lra.
  assert (Hi : 0 < / sqrt 2) by (apply Rinv_0_lt_compat; exact Hs).
  assert (Hone : sqrt 2 * / sqrt 2 = 1) by (apply Rinv_r; lra).
  unfold close, Rdiv. repeat split; apply Rabs_le; split; nra.
Qed.

(** ** Sampling parameters that make no sense *)

(** The rows of the data frames of a run that reached the end. *)
Lemma notebook_shape (p : Params) (g : rng) :
  (0 < N1 p)%Z -> (0 < N2 p)%Z -> (0 < N_val p)%Z ->
  exists ds g',
    notebook p g = Ok (ds, g') /\
    length (individual_calibration_set ds) = (3 * Z.to_nat (N1 p))%nat /\
    length (nl_individual_calibration_set ds) = (3 * Z.to_nat (N1 p))%nat /\
    length (full_calibration_set ds)
    = (3 * Z.to_nat (N1 p) + Z.to_nat (N2 p))%nat /\
    length (val_set ds) = Z.to_nat (N_val p).
Proof.
  intros H1 H2 H3.
  destruct (notebook_succeeds p g H1 H2 H3) as (Vi & _ & Hlen & Hok).
  cbv zeta in Hok. eexists. eexists. split; [exact Hok|].
  cbn [individual_calibration_set nl_individual_calibration_set
       full_calibration_set val_set].
  rewrite !length_table, length_app, !length_random_rows, Hlen.
  repeat split; reflexivity.
Qed.

(** C8, as the code has it: the notebook has no check of its sampling
    parameters.  The voltage range is never looked at: with positive
    sample numbers the run reaches its end for every [v_range], also a
    negative one or zero.  A sample number that is not positive stops
    the run with the [ValueError] of the numpy call that trips over it:
    for [N1] before any field is computed ([V_ind] fails or is empty),
    for [N2] and [N_val] after the data frames of the single coils have
    been built. *)
Theorem sampling_parameters_unchecked (p : Params) (g : rng) :
  ((N1 p <= 0)%Z ->
   notebook p g = Err ValueError /\
   (V_ind p = Err ValueError \/ V_ind p = Ok [])) /\
  ((0 < N1 p)%Z -> (N2 p <= 0)%Z \/ (N_val p <= 0)%Z ->
   notebook p g = Err ValueError /\
   exists Vi, V_ind p = Ok Vi /\ Vi <> [] /\
     concatenate_axis1 (of_list (fields_linear Vi)) (Arr2 Vi)
     = Ok (table field_linear Vi) /\
     concatenate_axis1 (of_list (fields_nonlinear p Vi)) (Arr2 Vi)
     = Ok (table (field_nonlinear p) Vi)) /\
  ((0 < N1 p)%Z -> (0 < N2 p)%Z -> (0 < N_val p)%Z ->
   exists ds g',
     notebook p g = Ok (ds, g') /\
     length (individual_calibration_set ds) = (3 * Z.to_nat (N1 p))%nat /\
     length (nl_individual_calibration_set ds) = (3 * Z.to_nat (N1 p))%nat /\
     length (full_calibration_set ds)
     = (3 * Z.to_nat (N1 p) + Z.to_nat (N2 p))%nat /\
     length (val_set ds) = Z.to_nat (N_val p)).
Proof.
  split; [|split].
  - intros H1. split; [apply notebook_fails; lia|].
    destruct (Z.lt_trichotomy (N1 p) 0) as [Hn|[Hz|Hp]]; [| |lia].
    + left. now apply V_ind_negative.
    + right. now apply V_ind_empty.
  - intros H1 H2. split; [apply notebook_fails; lia|].
    destruct (V_ind_ok p) as (xs & _ & _ & HV); [lia|].
    destruct (V_ind_length p _ HV) as (_ & Hlen).
    eexists. split; [exact HV|].
    assert (Hne : (let z := repeat 0 (Z.to_nat (N1 p)) in
                   stack_rows (xs ++ z ++ z) (z ++ xs ++ z) (z ++ z ++ xs))
                  <> []).
    { intros E. rewrite E in Hlen. simpl in Hlen. lia. }
    split; [exact Hne|].
    split; apply concatenate_axis1_table; exact Hne.
  - apply notebook_shape.
Qed.

Lemma sampling_parameters_unchecked_witness :
  v_range zero_range_params <= 0 /\
  exists ds g',
    notebook zero_range_params (fun _ => 0) = Ok (ds, g') /\
    length (individual_calibration_set ds) = 384%nat /\
    length (nl_individual_calibration_set ds) = 384%nat /\
    length (full_calibration_set ds) = 1408%nat /\
    length (val_set ds) = 256%nat.
Proof.
  split; [simpl; lra|].
  apply (proj2 (proj2 (sampling_parameters_unchecked zero_range_params
                         (fun _ => 0)))); simpl; lia.
Defined.

(** C8 as the documentation has it fails: a voltage range of zero is
    invalid there, and the notebook runs to its end with it. *)
Lemma zero_range_accepted :
  invalid_params zero_range_params /\
  ~ rejected zero_range_params (fun _ => 0).
Proof.
  split.
  - unfold invalid_params. right. right. right. simpl. lra.
  - intros (e & He).
    destruct (notebook_shape zero_range_params (fun _ => 0))
      as (ds & g' & Hok & _); try (simpl; lia).
    rewrite Hok in He. discriminate.
Qed.

(** ** Runs and the random generator *)

Lemma random_rows_ext (p : Params) (n : Z) (g1 g2 : rng) :
  (forall k, (k < 3 * Z.to_nat n)%nat -> g1 k = g2 k) ->
  random_rows p n g1 = random_rows p n g2.
Proof.
  intros H. unfold random_rows. apply map_ext_in.
  intros i Hi. apply in_seq in Hi. unfold uniform_row.
  rewrite !H by lia. reflexivity.
Qed.

Lemma random_rows_hd (p : Params) (n : Z) (g : rng) :
  (0 < n)%Z ->
  hd zero3 (random_rows p n g) = uniform_row (- v_range p) (v_range p) g 0.
Proof.
  intros H. unfold random_rows.
  destruct (Z.to_nat n) as [|k] eqn:E; [lia | reflexivity].
Qed.

Lemma voltage_table (f : vec3 -> vec3) (Vs : list vec3) :
  map voltage (table f Vs) = Vs.
Proof.
  unfold table. induction Vs as [|V Vs IH]; [reflexivity|].
  simpl. rewrite IH. f_equal.
  destruct V as [[v0 v1] v2]. destruct (f (v0, v1, v2)) as [[b0 b1] b2].
  reflexivity.
Qed.

Lemma V_ind_params (p q : Params) :
  v_range p = v_range q -> N1 p = N1 q -> V_ind p = V_ind q.
Proof. intros Hv HN. unfold V_ind. now rewrite Hv, HN. Qed.

Lemma random_rows_inj (p : Params) (n : Z) (g1 g2 : rng) :
  v_range p <> 0 ->
  random_rows p n g1 = random_rows p n g2 ->
  forall k, (k < 3 * Z.to_nat n)%nat -> g1 k = g2 k.
Proof.
  intros Hv H k Hk. unfold random_rows in H.
  pose proof (Nat.div_mod_eq k 3) as Hdm.
  pose proof (Nat.mod_upper_bound k 3) as Hmod.
  assert (Hin : In (k / 3)%nat (seq 0 (Z.to_nat n))).
  { apply in_seq. split; [lia|].
    apply Nat.Div0.div_lt_upper_bound. lia. }
  pose proof (ext_in_map H (k / 3)%nat Hin) as E. unfold uniform_row in E.
  assert (E0 := f_equal (fun w : vec3 => fst (fst w)) E).
  assert (E1 := f_equal (fun w : vec3 => snd (fst w)) E).
  assert (E2 := f_equal (fun w : vec3 => snd w) E).
  cbn [fst snd] in E0, E1, E2.
  assert (Hd : v_range p - - v_range p <> 0) by lra.
  destruct (k mod 3)%nat as [|[|[|j]]] eqn:Em; [| | |lia].
  - replace k with (3 * (k / 3))%nat by lia.
    apply Rmult_eq_reg_l with (v_range p - - v_range p); [lra | exact Hd].
  - replace k with (3 * (k / 3) + 1)%nat by lia.
    apply Rmult_eq_reg_l with (v_range p - - v_range p); [lra | exact Hd].
  - replace k with (3 * (k / 3) + 2)%nat by lia.
    apply Rmult_eq_reg_l with (v_range p - - v_range p); [lra | exact Hd].
Qed.

(** The full frame and the validation frame of a run, empty for a run
    that failed. *)
Lemma frames_random_parts (p : Params) (g1 g2 : rng) :
  (0 < N1 p)%Z -> (0 < N2 p)%Z -> (0 < N_val p)%Z ->
  frames (notebook p g1) = frames (notebook p g2) ->
  random_rows p (N2 p) g1 = random_rows p (N2 p) g2 /\
  random_rows p (N_val p) (advance (3 * Z.to_nat (N2 p)) g1)
  = random_rows p (N_val p) (advance (3 * Z.to_nat (N2 p)) g2).
Proof.
  intros H1 H2 H3 H.
  destruct (notebook_succeeds p g1 H1 H2 H3) as (Vi & HV & _ & Hok1).
  destruct (notebook_succeeds p g2 H1 H2 H3) as (Vi' & HV' & _ & Hok2).
  rewrite HV in HV'. injection HV' as <-.
  cbv zeta in Hok1, Hok2. rewrite Hok1, Hok2 in H. cbn [frames bind] in H.
  assert (Hfull := f_equal (fun r : result Datasets =>
                              match r with
                              | Ok ds => map voltage (full_calibration_set ds)
                              | Err _ => []
                              end) H).
  assert (Hval := f_equal (fun r : result Datasets =>
                             map voltage (val_set_of r)) H).
  cbn [val_set_of val_set full_calibration_set] in Hfull, Hval.
  rewrite !voltage_table in Hfull, Hval.
  split; [now apply app_inv_head in Hfull | exact Hval].
Qed.

(** C9, as the code has it: the sweep over single coils is a function of
    [N1] and [v_range] alone, and so are the two data frames built from
    it, whatever the generator does.  The random voltages are taken
    from the global generator, whose state is no input of the notebook:
    two runs give the same data frames when the generator delivers the
    same [3 * (N2 + N_val)] numbers in both, and, for a voltage range
    that is not zero and positive sample numbers, only then. *)
Theorem runs_and_generator (p : Params) (g1 g2 : rng) :
  (forall q, v_range p = v_range q -> N1 p = N1 q -> V_ind p = V_ind q) /\
  (forall ds1 ds2 g1' g2',
      notebook p g1 = Ok (ds1, g1') -> notebook p g2 = Ok (ds2, g2') ->
      individual_calibration_set ds1 = individual_calibration_set ds2 /\
      nl_individual_calibration_set ds1 = nl_individual_calibration_set ds2) /\
  ((forall k, (k < 3 * (Z.to_nat (N2 p) + Z.to_nat (N_val p)))%nat ->
              g1 k = g2 k) ->
   frames (notebook p g1) = frames (notebook p g2)) /\
  (v_range p <> 0 -> (0 < N1 p)%Z -> (0 < N2 p)%Z -> (0 < N_val p)%Z ->
   frames (notebook p g1) = frames (notebook p g2) ->
   forall k, (k < 3 * (Z.to_nat (N2 p) + Z.to_nat (N_val p)))%nat ->
             g1 k = g2 k).
Proof.
  split; [|split; [|split]].
  - apply V_ind_params.
  - intros ds1 ds2 g1' g2' Hr1 Hr2.
    destruct (notebook_inv p g1 g1' ds1 Hr1) as (_ & _ & _ & Vi & HV & ->).
    destruct (notebook_inv p g2 g2' ds2 Hr2) as (_ & _ & _ & Vi' & HV' & ->).
    rewrite HV in HV'. injection HV' as <-. split; reflexivity.
  - intros Hg.
    destruct (Z.lt_ge_cases 0 (N1 p)) as [H1|H1];
      [|rewrite !notebook_fails by lia; reflexivity].
    destruct (Z.lt_ge_cases 0 (N2 p)) as [H2|H2];
      [|rewrite !notebook_fails by lia; reflexivity].
    destruct (Z.lt_ge_cases 0 (N_val p)) as [H3|H3];
      [|rewrite !notebook_fails by lia; reflexivity].
    destruct (notebook_succeeds p g1 H1 H2 H3) as (Vi & HV & _ & Hok1).
    destruct (notebook_succeeds p g2 H1 H2 H3) as (Vi' & HV' & _ & Hok2).
    rewrite HV in HV'. injection HV' as <-.
    cbv zeta in Hok1, Hok2. rewrite Hok1, Hok2. cbn [frames bind].
    rewrite (random_rows_ext p (N2 p) g1 g2) by (intros k Hk; apply Hg; lia).
    rewrite (random_rows_ext p (N_val p)
               (advance (3 * Z.to_nat (N2 p)) g1)
               (advance (3 * Z.to_nat (N2 p)) g2))
      by (intros k Hk; unfold advance; apply Hg; lia).
    reflexivity.
  - intros Hv H1 H2 H3 H k Hk.
    destruct (frames_random_parts p g1 g2 H1 H2 H3 H) as (Hr & Hw).
    destruct (Nat.lt_ge_cases k (3 * Z.to_nat (N2 p))) as [Hlt|Hge].
    + exact (random_rows_inj p (N2 p) g1 g2 Hv Hr k Hlt).
    + pose proof (random_rows_inj p (N_val p) _ _ Hv Hw
                    (k - 3 * Z.to_nat (N2 p))%nat) as E.
      unfold advance in E.
      replace (k - 3 * Z.to_nat (N2 p) + 3 * Z.to_nat (N2 p))%nat
        with k in E by lia.
      apply E. lia.
Qed.

Lemma runs_and_generator_witness :
  frames (notebook notebook_params (fun _ => 0))
  = frames (notebook notebook_params (fun k => if (k <? 3840)%nat then 0 else 1 / 2)).
Proof.
  apply (proj1 (proj2 (proj2 (runs_and_generator notebook_params (fun _ => 0)
                         (fun k => if (k <? 3840)%nat then 0 else 1 / 2))))).
  intros k Hk.
  destruct (Nat.ltb_spec k 3840) as [_|Hge]; [reflexivity|].
  exfalso. simpl in Hk. lia.
Defined.

(** C9 as the documentation has it fails: with the sampling parameters
    of the notebook, a generator that delivers zeros and one that
    delivers halves give different random voltages. *)
Lemma runs_differ : ~ reproducible notebook_params.
Proof.
  intros H. specialize (H (fun _ => 0) (fun _ => 1 / 2)).
  destruct (notebook_succeeds notebook_params (fun _ => 0))
    as (Vi & HV & _ & Hok1); try (simpl; lia).
  destruct (notebook_succeeds notebook_params (fun _ => 1 / 2))
    as (Vi' & HV' & _ & Hok2); try (simpl; lia).
  cbv zeta in Hok1, Hok2. rewrite Hok1, Hok2 in H.
  cbn [frames bind] in H.
  apply (f_equal val_set_of) in H. cbn [val_set_of val_set] in H.
  rename H into Hval.
  apply (f_equal (map voltage)) in Hval. rewrite !voltage_table in Hval.
  apply (f_equal (hd zero3)) in Hval.
  rewrite !random_rows_hd in Hval by (simpl; lia).
  apply (f_equal (fun v : vec3 => fst (fst v))) in Hval.
  unfold uniform_row, advance in Hval. simpl in Hval. lra.
Qed.

(** * Further properties of the field functions *)

(** ** The magnitude *)

(** X1: [mag] is never negative, it is zero for the zero vector only,
    its square is the dot product of the vector with itself, and
    scaling a vector by [c] scales its magnitude by [|c|]. *)
Theorem mag_properties (x : vec3) (c : R) :
  0 <= mag x /\
  (mag x = 0 <-> x = zero3) /\
  mag x * mag x = dot x x /\
  mag (smul c x) = Rabs c * mag x.
Proof.
  pose proof (dot_self_nonneg x) as Hx.
  unfold mag. split; [apply sqrt_pos|]. split; [|split].
  - rewrite <- dot_self_zero. split.
    + intros H. now apply sqrt_eq_0.
    + intros ->. apply sqrt_0.
  - now apply sqrt_def.
  - assert (Hd : dot (smul c x) (smul c x) = Rsqr c * dot x x).
    { vec_destruct. unfold Rsqr. simpl. ring. }
    rewrite Hd, sqrt_mult by (try apply Rle_0_sqr; exact Hx).
    now rewrite sqrt_Rsqr_abs.
Qed.

(** ** One dipole *)

Lemma vsub_translate (r p t : vec3) :
  vsub (vadd r t) (vadd p t) = vsub r p.
Proof. vec_destruct. simpl. apply vec3_eq; ring. Qed.

Lemma dot_opp (u : vec3) : dot (smul (-1) u) (smul (-1) u) = dot u u.
Proof. vec_destruct. simpl. ring. Qed.

(** X2: the field of a dipole depends on the field point and the dipole
    position through their difference only: moving both by the same
    vector [t] changes nothing. *)
Theorem dipole_field_translate (r p t : vec3) (mm : R) (a : vec3) :
  dipole_field (vadd r t) (vadd p t) mm a = dipole_field r p mm a.
Proof.
  unfold dipole_field. now rewrite vsub_translate.
Qed.

(** X3: the field of a dipole is the same at two field points that lie
    opposite each other about the dipole: at [p + d] and at [p - d]. *)
Theorem dipole_field_opposite (p d : vec3) (mm : R) (a : vec3) :
  dipole_field (vadd p d) p mm a = dipole_field (vsub p d) p mm a.
Proof.
  unfold dipole_field.
  assert (H1 : vsub (vadd p d) p = d)
    by (vec_destruct; simpl; apply vec3_eq; ring).
  assert (H2 : vsub (vsub p d) p = smul (-1) d)
    by (vec_destruct; simpl; apply vec3_eq; ring).
  rewrite H1, H2. unfold mag. rewrite dot_opp.
  destruct (Reqb (dot d d) 0); [reflexivity|].
  vec_destruct. simpl. apply vec3_eq; unfold Rdiv; ring.
Qed.

(** X4: as the docstring of [dipole_field] says, a negative magnitude
    is the opposite orientation of the dipole axis: the field for the
    magnitude [-m] and the axis [a] is the field for the magnitude [m]
    and the axis [-a], and both are the opposite of the field for [m]
    and [a]. *)
Theorem dipole_field_negative_magnitude (r p : vec3) (mm : R) (a : vec3) :
  dipole_field r p (- mm) a = dipole_field r p mm (smul (-1) a) /\
  dipole_field r p (- mm) a = smul (-1) (dipole_field r p mm a).
Proof.
  split.
  - unfold dipole_field.
    destruct (Reqb (dot (vsub r p) (vsub r p)) 0); [reflexivity|].
    vec_destruct. simpl. apply vec3_eq; unfold Rdiv; ring.
  - replace (- mm) with (-1 * mm) by ring. apply dipole_field_scale.
Qed.

(** ** Superposition *)

(** X5: the total field is the sum of what each dipole gives when the
    other two are switched off, and with a single dipole switched on
    [total_field] is the [dipole_field] of that dipole. *)
Theorem total_field_superposition (r a : vec3) (m1 m2 m3 : R) :
  total_field r (m1, 0, 0) a = dipole_field r R1 m1 a /\
  total_field r (0, m2, 0) a = dipole_field r R2 m2 a /\
  total_field r (0, 0, m3) a = dipole_field r R3 m3 a /\
  total_field r (m1, m2, m3) a =
  vadd (vadd (total_field r (m1, 0, 0) a) (total_field r (0, m2, 0) a))
       (total_field r (0, 0, m3) a).
Proof.
  assert (E1 : total_field r (m1, 0, 0) a = dipole_field r R1 m1 a).
  { unfold total_field. cbn [item].
    now rewrite !dipole_field_zero_moment, !vadd_zero_r. }
  assert (E2 : total_field r (0, m2, 0) a = dipole_field r R2 m2 a).
  { unfold total_field. cbn [item].
    now rewrite !dipole_field_zero_moment, vadd_zero_l, vadd_zero_r. }
  assert (E3 : total_field r (0, 0, m3) a = dipole_field r R3 m3 a).
  { unfold total_field. cbn [item].
    now rewrite !dipole_field_zero_moment, !vadd_zero_l. }
  repeat split; try assumption.
  rewrite E1, E2, E3. reflexivity.
Qed.

(** ** The field at the magnetometer *)

Lemma sqrt3_sqr : sqrt 3 * sqrt 3 = 3.
Proof. apply sqrt_def. lra. Qed.

Lemma r0_neq_R2 : r0 <> R2.
Proof.
  intros H. apply (f_equal (fun v : vec3 => snd v)) in H.
  unfold r0, R2 in H. simpl in H. lra.
Qed.

Lemma r0_neq_R3 : r0 <> R3.
Proof.
  intros H. apply (f_equal (fun v : vec3 => snd v)) in H.
  unfold r0, R3 in H. simpl in H. lra.
Qed.

Lemma R2_value : R2 = (- (1 / 2), sqrt 3 / 2, 1).
Proof. unfold R2. now rewrite cos_PI3, sin_PI3. Qed.

Lemma R3_value : R3 = (- (1 / 2), - (sqrt 3 / 2), 1).
Proof. unfold R3. now rewrite cos_PI3, sin_PI3. Qed.

(** The magnetometer is at the distance [sqrt 2] of each dipole. *)
Lemma mag_r0_poles :
  mag (vsub r0 R1) = sqrt 2 /\ mag (vsub r0 R2) = sqrt 2 /\
  mag (vsub r0 R3) = sqrt 2.
Proof.
  pose proof sqrt3_sqr as H3.
  rewrite R2_value, R3_value. unfold mag, r0, R1.
  repeat split; f_equal; simpl; nra.
Qed.

Lemma total_field_at_r0 (mv : vec3) :
  total_field r0 mv A = origin_field mv.
Proof.
  destruct mag_r0_poles as (M1 & M2 & M3).
  unfold total_field.
  rewrite (dipole_field_regular r0 R1) by exact r0_neq_R1.
  rewrite (dipole_field_regular r0 R2) by exact r0_neq_R2.
  rewrite (dipole_field_regular r0 R3) by exact r0_neq_R3.
  rewrite M1, M2, M3. rewrite R2_value, R3_value.
  pose proof sqrt2_bounds as [Hlo _].
  assert (H2 : sqrt 2 * sqrt 2 = 2) by (apply sqrt_def; lra).
  assert (P3 : sqrt 2 ^ 3 = 2 * sqrt 2).
  { replace (sqrt 2 ^ 3) with (sqrt 2 * sqrt 2 * sqrt 2) by ring.
    now rewrite H2. }
  assert (P5 : sqrt 2 ^ 5 = 4 * sqrt 2).
  { replace (sqrt 2 ^ 5) with (sqrt 2 * sqrt 2 * (sqrt 2 * sqrt 2) * sqrt 2)
      by ring.
    rewrite H2. ring. }
  rewrite P3, P5. destruct mv as [[m1 m2] m3].
  unfold origin_field, r0, R1, A. cbn [item vsub smul vmuls vdivs dot vadd].
  apply vec3_eq; field; lra.
Qed.

(** X6: at the magnetometer the dipole at position [(x, y, 1)] with the
    magnitude [mi] gives the field [c * mi * (3x, 3y, 1)] for
    [c = mu0 / (4 * sqrt 2)]; so the total field there is the linear map
    [origin_field] of the three magnitudes, and the singular branch of
    [dipole_field] is never taken for it. *)
Theorem total_field_origin (mv : vec3) :
  total_field r0 mv A = origin_field mv.
Proof. apply total_field_at_r0. Qed.

(** ** From the voltages to the field *)

Lemma tanh_increasing (x y : R) : x < y -> tanh x < tanh y.
Proof.
  intros Hxy. rewrite !tanh_exp.
  pose proof (exp_pos x) as Ex. pose proof (exp_pos (- x)) as Fx.
  pose proof (exp_pos y) as Ey. pose proof (exp_pos (- y)) as Fy.
  assert (He : exp x < exp y) by (apply exp_increasing; exact Hxy).
  assert (Hf : exp (- y) < exp (- x)) by (apply exp_increasing; lra).
  apply Rmult_lt_reg_r with (exp x + exp (- x)); [lra|].
  unfold Rdiv at 1. rewrite Rmult_assoc, Rinv_l, Rmult_1_r by lra.
  apply Rmult_lt_reg_r with (exp y + exp (- y)); [lra|].
  replace ((exp y - exp (- y)) / (exp y + exp (- y)) * (exp x + exp (- x))
           * (exp y + exp (- y)))
    with ((exp y - exp (- y)) * (exp x + exp (- x))) by (field; lra).
  assert (exp x * exp (- y) < exp y * exp (- x)) by nra.
  nra.
Qed.

Lemma tanh_injective (x y : R) : tanh x = tanh y -> x = y.
Proof.
  intros H. destruct (Rtotal_order x y) as [Hlt|[Heq|Hgt]]; [|exact Heq|].
  - apply tanh_increasing in Hlt. lra.
  - apply tanh_increasing in Hgt. lra.
Qed.

Lemma origin_field_injective (u v : vec3) :
  origin_field u = origin_field v -> u = v.
Proof.
  destruct u as [[u1 u2] u3], v as [[v1 v2] v3]. unfold origin_field.
  pose proof sqrt2_bounds as [Hlo _]. pose proof sqrt3_sqr as H3.
  assert (Hs3 : 0 < sqrt 3) by (apply sqrt_lt_R0; lra).
  set (c := mu0 / (4 * sqrt 2)).
  assert (Hc : 0 < c).
  { unfold c, mu0. apply Rdiv_lt_0_compat; lra. }
  intros H.
  assert (Hx := f_equal (fun w : vec3 => fst (fst w)) H).
  assert (Hy := f_equal (fun w : vec3 => snd (fst w)) H).
  assert (Hz := f_equal (fun w : vec3 => snd w) H).
  cbn [fst snd] in Hx, Hy, Hz.
  assert (Ex : u1 - u2 / 2 - u3 / 2 = v1 - v2 / 2 - v3 / 2).
  { apply Rmult_eq_reg_l with (3 * c); [exact Hx | lra]. }
  assert (Ey : u2 - u3 = v2 - v3).
  { apply Rmult_eq_reg_l with (3 * c * (sqrt 3 / 2)); [exact Hy|].
    apply Rgt_not_eq. apply Rmult_lt_0_compat; lra. }
  assert (Ez : u1 + u2 + u3 = v1 + v2 + v3).
  { apply Rmult_eq_reg_l with c; [exact Hz | lra]. }
  apply vec3_eq; lra.
Qed.

Lemma moment_linear_injective (V V' : vec3) :
  moment_linear V = moment_linear V' -> V = V'.
Proof.
  destruct V as [[a b] c], V' as [[a' b'] c']. unfold moment_linear. simpl.
  rewrite m_value. intros H.
  assert (Hx := f_equal (fun w : vec3 => fst (fst w)) H).
  assert (Hy := f_equal (fun w : vec3 => snd (fst w)) H).
  assert (Hz := f_equal (fun w : vec3 => snd w) H).
  cbn [fst snd] in Hx, Hy, Hz. apply vec3_eq; lra.
Qed.

Lemma moment_nonlinear_injective (p : Params) (V V' : vec3) :
  v_range p <> 0 -> moment_nonlinear p V = moment_nonlinear p V' -> V = V'.
Proof.
  intros Hv H.
  assert (Hi : forall i, item V i = item V' i).
  { intros i. apply (f_equal (fun w => item w i)) in H.
    rewrite !item_moment_nonlinear, m_value in H.
    assert (Ht : tanh (item V i / nf) = tanh (item V' i / nf)).
    { apply Rmult_eq_reg_l with (v_range p); [lra | exact Hv]. }
    apply tanh_injective in Ht. unfold nf in Ht. lra. }
  destruct V as [[a b] c], V' as [[a' b'] c'].
  apply vec3_eq; [exact (Hi 0%nat) | exact (Hi 1%nat) | exact (Hi 2%nat)].
Qed.

Lemma total_field_smul (r a : vec3) (c : R) (mv : vec3) :
  total_field r (smul c mv) a = smul c (total_field r mv a).
Proof.
  unfold total_field. rewrite !item_smul, !dipole_field_scale.
  destruct (dipole_field r R1 (item mv 0) a) as [[x1 y1] z1].
  destruct (dipole_field r R2 (item mv 1) a) as [[x2 y2] z2].
  destruct (dipole_field r R3 (item mv 2) a) as [[x3 y3] z3].
  simpl. apply vec3_eq; ring.
Qed.

Lemma total_field_zero (r a : vec3) : total_field r zero3 a = zero3.
Proof.
  unfold total_field. cbn [item zero3].
  now rewrite !dipole_field_zero_moment, !vadd_zero_l.
Qed.

(** X9: reversing all three voltages reverses the field, in the
    linear and in the non-linear case; with all voltages zero the field
    is zero: the model has no ambient field. *)
Theorem field_odd (p : Params) (V : vec3) :
  field_linear (smul (-1) V) = smul (-1) (field_linear V) /\
  field_nonlinear p (smul (-1) V) = smul (-1) (field_nonlinear p V) /\
  field_linear zero3 = zero3 /\
  field_nonlinear p zero3 = zero3.
Proof.
  assert (L : forall W, moment_linear (smul (-1) W) = smul (-1) (moment_linear W)).
  { intros W. destruct W as [[a b] c]. unfold moment_linear. simpl.
    apply vec3_eq; ring. }
  assert (N : forall W, moment_nonlinear p (smul (-1) W)
                        = smul (-1) (moment_nonlinear p W)).
  { intros W. destruct W as [[a b] c]. unfold moment_nonlinear. simpl.
    replace (-1 * a / nf) with (- (a / nf)) by (unfold nf; field).
    replace (-1 * b / nf) with (- (b / nf)) by (unfold nf; field).
    replace (-1 * c / nf) with (- (c / nf)) by (unfold nf; field).
    rewrite !tanh_opp. apply vec3_eq; ring. }
  assert (Z0 : smul (-1) zero3 = zero3)
    by (unfold zero3; simpl; apply vec3_eq; ring).
  unfold field_linear, field_nonlinear. split; [|split; [|split]].
  - rewrite L. apply total_field_smul.
  - rewrite N. apply total_field_smul.
  - replace (moment_linear zero3) with zero3.
    + apply total_field_zero.
    + unfold moment_linear, zero3. simpl. apply vec3_eq; ring.
  - replace (moment_nonlinear p zero3) with zero3.
    + apply total_field_zero.
    + symmetry. unfold moment_nonlinear, zero3. simpl.
      replace (0 / nf) with 0 by (unfold Rdiv; ring).
      rewrite tanh_0. apply vec3_eq; ring.
Qed.



(** ** The voltages of the data frames *)

Lemma Forall_voltage_table (P : vec3 -> Prop) (f : vec3 -> vec3)
  (Vs : list vec3) :
  Forall P Vs -> Forall (fun w => P (voltage w)) (table f Vs).
Proof.
  intros H. rewrite <- (voltage_table f Vs) in H.
  exact (proj1 (Forall_map voltage P (table f Vs)) H).
Qed.

(** The rows of [V_ind], each with the value of the sweep it carries. *)
Lemma V_ind_row_cases (p : Params) (xs : list R) (Vs : list vec3) (V : vec3) :
  linspace (- v_range p) (v_range p) (N1 p) = Ok xs ->
  V_ind p = Ok Vs -> In V Vs ->
  exists i, (i < Z.to_nat (N1 p))%nat /\
    (V = (nth i xs 0, 0, 0) \/ V = (0, nth i xs 0, 0) \/
     V = (0, 0, nth i xs 0)).
Proof.
  intros Hl HV Hin.
  destruct (V_ind_length p Vs HV) as (HN & Hlen).
  destruct (V_ind_rows p xs Vs HN Hl HV) as (_ & Hrows).
  apply (In_nth _ _ zero3) in Hin. destruct Hin as (j & Hj & <-).
  set (n := Z.to_nat (N1 p)) in *.
  destruct (Nat.lt_ge_cases j n) as [H1|H1].
  { exists j. split; [exact H1|]. left. apply (Hrows j H1). }
  destruct (Nat.lt_ge_cases j (2 * n)) as [H2|H2].
  { exists (j - n)%nat. split; [lia|]. right. left.
    destruct (Hrows (j - n)%nat) as (_ & E & _); [lia|].
    replace (n + (j - n))%nat with j in E by lia. exact E. }
  exists (j - 2 * n)%nat. split; [lia|]. right. right.
  destruct (Hrows (j - 2 * n)%nat) as (_ & _ & E); [lia|].
  replace (2 * n + (j - 2 * n))%nat with j in E by lia. exact E.
Qed.

(** The values of the sweep lie in the voltage range. *)
Lemma linspace_in_range (v : R) (num : Z) (xs : list R) (i : nat) :
  0 <= v -> linspace (- v) v num = Ok xs -> (i < Z.to_nat num)%nat ->
  - v <= nth i xs 0 <= v.
Proof.
  intros Hv Hl Hi.
  destruct (linspace_ok (- v) v num) as (xs' & Hl' & _ & Hone & Hnth);
    [lia|].
  rewrite Hl in Hl'. injection Hl' as <-.
  destruct (Z.eq_dec num 1) as [E1|E1].
  { rewrite (Hone E1). subst num.
    assert (i = 0%nat) by (simpl in Hi; lia). subst i. simpl. lra. }
  assert (H2 : (2 <= num)%Z) by lia.
  rewrite (Hnth H2 i Hi).
  assert (Hd : 0 < IZR (num - 1)) by (apply IZR_lt; lia).
  assert (Hi0 : 0 <= INR i) by apply pos_INR.
  assert (Hi1 : INR i <= IZR (num - 1)).
  { rewrite INR_IZR_INZ. apply IZR_le. lia. }
  assert (Hq : INR i * ((v - - v) / IZR (num - 1))
               = 2 * v * (INR i / IZR (num - 1))) by (field; lra).
  rewrite Hq.
  assert (Hr : 0 <= INR i / IZR (num - 1) <= 1).
  { split.
    - apply Rmult_le_pos; [exact Hi0|]. left. now apply Rinv_0_lt_compat.
    - apply Rmult_le_reg_r with (IZR (num - 1)); [exact Hd|].
      unfold Rdiv. rewrite Rmult_assoc, Rinv_l by lra. lra. }
  split; nra.
Qed.

Lemma random_rows_in_range (p : Params) (n : Z) (g : rng) :
  0 <= v_range p -> unit_interval g ->
  Forall (in_range (v_range p)) (random_rows p n g).
Proof.
  intros Hv Hg. unfold random_rows. apply Forall_map, Forall_forall.
  intros i _. unfold uniform_row, in_range.
  pose proof (Hg (3 * i)%nat). pose proof (Hg (3 * i + 1)%nat).
  pose proof (Hg (3 * i + 2)%nat).
  repeat split; nra.
Qed.

(** X11: when the voltage range is not negative and the generator
    delivers numbers of [[0, 1)], every voltage of every row of the four
    data frames lies in [[-v_range, v_range]]. *)
Theorem voltages_in_range (p : Params) (g g' : rng) (ds : Datasets) :
  0 <= v_range p -> unit_interval g ->
  notebook p g = Ok (ds, g') ->
  let ok := fun w => in_range (v_range p) (voltage w) in
  Forall ok (individual_calibration_set ds) /\
  Forall ok (nl_individual_calibration_set ds) /\
  Forall ok (full_calibration_set ds) /\
  Forall ok (val_set ds).
Proof.
  intros Hv Hg Hrun ok.
  destruct (notebook_inv p g g' ds Hrun) as (H1 & _ & _ & Vi & HV & ->).
  cbn [individual_calibration_set nl_individual_calibration_set
       full_calibration_set val_set].
  destruct (linspace_ok (- v_range p) (v_range p) (N1 p)) as (xs & Hl & _);
    [lia|].
  assert (HVi : Forall (in_range (v_range p)) Vi).
  { apply Forall_forall. intros V Hin.
    destruct (V_ind_row_cases p xs Vi V Hl HV Hin) as (i & Hi & Hc).
    pose proof (linspace_in_range (v_range p) (N1 p) xs i Hv Hl Hi) as Hr.
    destruct Hc as [-> | [-> | ->]]; unfold in_range; repeat split; lra. }
  assert (Hg1 : unit_interval (advance (3 * Z.to_nat (N2 p)) g)).
  { intros k. apply Hg. }
  repeat split; apply (Forall_voltage_table (in_range (v_range p)));
    try exact HVi.
  - apply Forall_app. split; [exact HVi|].
    now apply random_rows_in_range.
  - now apply random_rows_in_range.
Qed.

Lemma voltages_in_range_witness :
  exists ds g',
    notebook notebook_params (fun _ => 1 / 2) = Ok (ds, g') /\
    Forall (fun w => in_range 10 (voltage w)) (full_calibration_set ds) /\
    Forall (fun w => in_range 10 (voltage w)) (val_set ds).
Proof.
  destruct (notebook_succeeds notebook_params (fun _ => 1 / 2))
    as (Vi & _ & _ & Hok); try (simpl; lia).
  cbv zeta in Hok.
  assert (Hv : 0 <= v_range notebook_params) by (simpl; lra).
  assert (Hg : unit_interval (fun _ => 1 / 2)) by (intros k; lra).
  destruct (voltages_in_range notebook_params _ _ _ Hv Hg Hok)
    as (_ & _ & Hfull & Hval).
  eexists. eexists. split; [exact Hok|]. split; [exact Hfull | exact Hval].
Defined.

Lemma table_app (f : vec3 -> vec3) (Vs Ws : list vec3) :
  table f (Vs ++ Ws) = table f Vs ++ table f Ws.
Proof.
  unfold table. induction Vs as [|V Vs IH]; [reflexivity|].
  simpl. now rewrite IH.
Qed.

(** X12: how the data frames of a run are put together.  The voltage
    columns of the two frames of the single coils are [V_ind], row by
    row; the full frame is the non-linear frame of the single coils
    followed by the rows of the [N2] random voltages; the validation
    voltages are drawn after the training voltages, from the numbers of
    the generator that follow the [3 * N2] used for those; the run
    uses up [3 * (N2 + N_val)] numbers of the generator. *)
Theorem frames_composition (p : Params) (g g' : rng) (ds : Datasets) :
  notebook p g = Ok (ds, g') ->
  exists Vi,
    V_ind p = Ok Vi /\
    map voltage (individual_calibration_set ds) = Vi /\
    map voltage (nl_individual_calibration_set ds) = Vi /\
    full_calibration_set ds =
      nl_individual_calibration_set ds
      ++ table (field_nonlinear p) (random_rows p (N2 p) g) /\
    map voltage (full_calibration_set ds) = Vi ++ random_rows p (N2 p) g /\
    map voltage (val_set ds) =
      random_rows p (N_val p) (advance (3 * Z.to_nat (N2 p)) g) /\
    forall k, g' k = g (k + 3 * (Z.to_nat (N2 p) + Z.to_nat (N_val p)))%nat.
Proof.
  intros Hrun.
  destruct (notebook_inv p g g' ds Hrun) as (H1 & H2 & H3 & _).
  destruct (notebook_succeeds p g H1 H2 H3) as (Vi & HV & _ & Hok).
  cbv zeta in Hok. rewrite Hok in Hrun. injection Hrun as <- <-.
  exists Vi. split; [exact HV|].
  cbn [individual_calibration_set nl_individual_calibration_set
       full_calibration_set val_set].
  rewrite !voltage_table. repeat split.
  - apply table_app.
  - intros k. unfold advance. f_equal. lia.
Qed.

Lemma frames_composition_witness :
  exists ds g' Vi,
    notebook notebook_params (fun k => INR k) = Ok (ds, g') /\
    V_ind notebook_params = Ok Vi /\
    map voltage (individual_calibration_set ds) = Vi /\
    g' 0%nat = INR 3840.
Proof.
  destruct (notebook_succeeds notebook_params (fun k => INR k))
    as (Vi & _ & _ & Hok); try (simpl; lia).
  cbv zeta in Hok.
  destruct (frames_composition notebook_params _ _ _ Hok)
    as (Vi' & HV & Hind & _ & _ & _ & _ & Hg).
  eexists. eexists. exists Vi'. split; [exact Hok|].
  split; [exact HV|]. split; [exact Hind|].
  rewrite Hg. f_equal.
Defined.

(** ** Rows of the sweep with a single coil driven *)

Lemma sweep_value_zero (v : R) (num : Z) (i : nat) :
  v <> 0 -> (2 <= num)%Z ->
  - v + INR i * ((v - - v) / IZR (num - 1)) = 0 ->
  (2 * Z.of_nat i = num - 1)%Z.
Proof.
  intros Hv H2 H0.
  assert (Hd : 0 < IZR (num - 1)) by (apply IZR_lt; lia).
  assert (E : 2 * INR i = IZR (num - 1)).
  { apply Rmult_eq_reg_l with v; [|exact Hv].
    apply Rmult_eq_reg_r with (/ IZR (num - 1));
      [|apply Rinv_neq_0_compat; lra].
    replace (v * IZR (num - 1) * / IZR (num - 1)) with v by (field; lra).
    unfold Rdiv in H0. lra. }
  rewrite INR_IZR_INZ, <- mult_IZR in E. now apply eq_IZR in E.
Qed.

(** X13: for a positive voltage range and an even number of samples
    per coil, as the 128 of the notebook, or a single sample, no value
    of the sweep is zero, and every row of [V_ind] has exactly one
    voltage that is not zero. *)
Theorem sweep_rows_single_coil (p : Params) (Vs : list vec3) :
  0 < v_range p -> V_ind p = Ok Vs ->
  Z.even (N1 p) = true \/ N1 p = 1%Z -> Forall single_coil Vs.
Proof.
  intros Hv HV Hcase.
  destruct (V_ind_length p Vs HV) as (HN & Hlen).
  destruct (linspace_ok (- v_range p) (v_range p) (N1 p) HN)
    as (xs & Hl & _ & Hone & Hnth).
  apply Forall_forall. intros V Hin.
  destruct (V_ind_row_cases p xs Vs V Hl HV Hin) as (i & Hi & Hc).
  assert (Hx : nth i xs 0 <> 0).
  { destruct Hcase as [Hev|H1].
    - apply Z.even_spec in Hev. destruct Hev as (k & Hk).
      assert (H2 : (2 <= N1 p)%Z) by lia.
      rewrite (Hnth H2 i Hi). intros H0.
      apply sweep_value_zero in H0; [lia | lra | exact H2].
    - rewrite (Hone H1). rewrite H1 in Hi.
      assert (i = 0%nat) by (simpl in Hi; lia). subst i. simpl. lra. }
  destruct Hc as [-> | [-> | ->]]; unfold single_coil.
  - left. repeat split; exact Hx.
  - right. left. repeat split; exact Hx.
  - right. right. repeat split; exact Hx.
Qed.

Lemma sweep_rows_single_coil_witness :
  exists Vs, V_ind notebook_params = Ok Vs /\ Forall single_coil Vs.
Proof.
  destruct (V_ind_ok notebook_params) as (xs & _ & _ & HV); [simpl; lia|].
  eexists. split; [exact HV|].
  assert (Hv : 0 < v_range notebook_params) by (simpl; lra).
  apply (sweep_rows_single_coil notebook_params _ Hv HV).
  left. reflexivity.
Defined.

(** ** Voltages for a wanted field *)

(** X14: in the linear case every field at the magnetometer is produced
    by exactly one voltage vector, as the README says when it solves
    [B = M V] for the voltages. *)
Theorem field_linear_bijective (B : vec3) :
  exists V, field_linear V = B /\ forall V', field_linear V' = B -> V' = V.
Proof.
  destruct B as [[bx by_] bz].
  pose proof sqrt2_bounds as [Hlo _]. pose proof sqrt3_sqr as H3.
  assert (Hs3 : 0 < sqrt 3) by (apply sqrt_lt_R0; lra).
  set (c := 10 / (4 * sqrt 2)).
  set (s := bz / c). set (a := bx / (3 * c)).
  set (d := 2 * by_ / (3 * c * sqrt 3)).
  set (v1 := (s + 2 * a) / 3).
  exists (v1, (s - v1 + d) / 2, (s - v1 - d) / 2).
  assert (E : field_linear (v1, (s - v1 + d) / 2, (s - v1 - d) / 2)
              = (bx, by_, bz)).
  { unfold field_linear. rewrite total_field_at_r0.
    unfold moment_linear, origin_field. cbn [vmuls].
    rewrite mu0_value, m_value. unfold v1, d, a, s, c.
    apply vec3_eq; field_simplify_eq; try lra; try nra. }
  split; [exact E|].
  intros V' H'. rewrite <- E in H'. unfold field_linear in H'.
  rewrite !total_field_at_r0 in H'.
  apply moment_linear_injective, origin_field_injective, H'.
Qed.

(** * The saturation of [np.tanh] *)

Lemma exp_INR_mult (x : R) (n : nat) : exp (INR n * x) = exp x ^ n.
Proof.
  induction n as [|n IH].
  - simpl. rewrite Rmult_0_l. apply exp_0.
  - rewrite S_INR, Rmult_plus_distr_r, Rmult_1_l, exp_plus, IH. simpl. ring.
Qed.

Lemma exp_40_lower : 2 ^ 55 <= exp 40.
Proof.
  assert (H40 : 40 = INR 640 * (1 / 16)).
  { rewrite INR_IZR_INZ. simpl. lra. }
  rewrite H40, exp_INR_mult.
  apply Rle_trans with ((17 / 16) ^ 640).
  - assert (HZ : IZR (2 ^ Z.of_nat 55 * 16 ^ Z.of_nat 640)
                 <= IZR (17 ^ Z.of_nat 640)).
    { apply IZR_le, Z.leb_le. vm_compute. reflexivity. }
    rewrite mult_IZR, <- !pow_IZR in HZ.
    assert (H16 : 0 < 16 ^ 640) by (apply pow_lt; lra).
    unfold Rdiv. rewrite Rpow_mult_distr, pow_inv.
    apply Rmult_le_reg_r with (16 ^ 640); [exact H16|].
    rewrite Rmult_assoc, Rinv_l, Rmult_1_r by lra. exact HZ.
  - apply pow_incr. pose proof (exp_ineq1_le (1 / 16)). lra.
Qed.

Lemma half_ulp_bounds : 0 < / 2 ^ 54 < 1 / 8.
Proof.
  assert (H : 8 < 2 ^ 54).
  { replace 8 with (2 ^ 3) by (simpl; lra). apply Rlt_pow; [lra | lia]. }
  split.
  - apply Rinv_0_lt_compat. lra.
  - replace (1 / 8) with (/ 8) by lra. apply Rinv_lt_contravar; [|exact H].
    apply Rmult_lt_0_compat; lra.
Qed.

(** [tanh x] is within [2^-54] of 1 once [exp (2 * x)] reaches [2^55]. *)
Lemma tanh_near_one (x : R) : 2 ^ 55 <= exp (x + x) -> 1 - / 2 ^ 54 <= tanh x.
Proof.
  intros H40. rewrite tanh_exp.
  pose proof (exp_pos x) as He. pose proof (exp_pos (- x)) as Hf.
  pose proof (exp_opp_mul x) as Hm.
  rewrite exp_plus in H40.
  assert (H55 : 2 ^ 55 = 2 * 2 ^ 54) by (simpl; ring).
  assert (Hp54 : 0 < 2 ^ 54) by (apply pow_lt; lra).
  assert (Hi : / 2 ^ 54 * 2 ^ 54 = 1) by (apply Rinv_l; lra).
  pose proof half_ulp_bounds as [Hu _].
  assert (Hs : 0 < exp x + exp (- x)) by lra.
  apply Rmult_le_reg_r with (exp x + exp (- x)); [exact Hs|].
  unfold Rdiv. rewrite Rmult_assoc, Rinv_l, Rmult_1_r by lra.
  assert (Hue : 2 <= / 2 ^ 54 * (exp x * exp x)).
  { apply Rmult_le_reg_l with (2 ^ 54); [exact Hp54|].
    rewrite <- Rmult_assoc, (Rmult_comm (2 ^ 54) (/ 2 ^ 54)), Hi. lra. }
  assert (Hk : 2 * exp (- x) <= / 2 ^ 54 * exp x).
  { apply Rmult_le_reg_r with (exp x); [exact He|].
    replace (2 * exp (- x) * exp x) with (2 * (exp x * exp (- x))) by ring.
    rewrite Hm. lra. }
  nra.
Qed.

Lemma tanh_20 : 1 - / 2 ^ 54 <= tanh 20.
Proof.
  apply tanh_near_one. replace (20 + 20) with 40 by lra. exact exp_40_lower.
Qed.

(** [tanh x] is far from 1 while [exp x] is at most 3. *)
Lemma tanh_far_from_one (x : R) :
  0 <= x -> exp x <= 3 -> tanh x < 1 - / 2 ^ 54.
Proof.
  intros Hx H3. rewrite tanh_exp.
  pose proof (exp_pos x) as He. pose proof (exp_pos (- x)) as Hf.
  pose proof (exp_opp_mul x) as Hm.
  pose proof half_ulp_bounds as [Hu0 Hu].
  assert (Hf3 : 1 / 3 <= exp (- x)) by nra.
  assert (Hf1 : exp (- x) <= 1).
  { pose proof (exp_ineq1_le x). nra. }
  apply Rmult_lt_reg_r with (exp x + exp (- x)); [lra|].
  unfold Rdiv. rewrite Rmult_assoc, Rinv_l, Rmult_1_r by lra.
  nra.
Qed.

Lemma tanh_1 : tanh 1 < 1 - / 2 ^ 54.
Proof. apply tanh_far_from_one; [lra | exact exp_le_3]. Qed.

Lemma tanh_le (x y : R) : x <= y -> tanh x <= tanh y.
Proof.
  intros [H| ->]; [left; now apply tanh_increasing | right; reflexivity].
Qed.

Lemma Rabs_le_bounds (x b : R) : Rabs x <= b -> - b <= x <= b.
Proof. unfold Rabs. destruct (Rcase_abs x); lra. Qed.

Lemma np_tanh_exact (x : R) : Rabs x <= 1 -> np_tanh x = tanh x.
Proof.
  intros Hx. apply Rabs_le_bounds in Hx. destruct Hx as [Hl Hu].
  pose proof (tanh_le x 1 Hu) as H1.
  assert (Hl' : - (1) <= x) by lra.
  pose proof (tanh_le (- (1)) x Hl') as H2. rewrite tanh_opp in H2.
  pose proof tanh_1 as Ht. pose proof half_ulp_bounds as [Hu0 _].
  unfold np_tanh.
  destruct (Rle_dec (1 - / 2 ^ 54) (tanh x)); [lra|].
  destruct (Rle_dec (tanh x) (- (1 - / 2 ^ 54))); [lra | reflexivity].
Qed.

Lemma np_tanh_saturated (x : R) : 20 <= x -> np_tanh x = 1.
Proof.
  intros Hx. pose proof (tanh_le 20 x Hx) as H. pose proof tanh_20 as H20.
  unfold np_tanh. destruct (Rle_dec (1 - / 2 ^ 54) (tanh x)); [reflexivity|lra].
Qed.

Lemma np_tanh_saturated_neg (x : R) : x <= - 20 -> np_tanh x = -1.
Proof.
  intros Hx. assert (Hx' : x <= - (20)) by lra.
  pose proof (tanh_le x (- (20)) Hx') as H. rewrite tanh_opp in H.
  pose proof tanh_20 as H20. pose proof half_ulp_bounds as [Hu0 Hu].
  unfold np_tanh.
  destruct (Rle_dec (1 - / 2 ^ 54) (tanh x)); [lra|].
  destruct (Rle_dec (tanh x) (- (1 - / 2 ^ 54))); [reflexivity | lra].
Qed.

Lemma np_tanh_bounds (x : R) : -1 <= np_tanh x <= 1.
Proof.
  pose proof (tanh_bounds x). unfold np_tanh.
  destruct (Rle_dec (1 - / 2 ^ 54) (tanh x)); [lra|].
  destruct (Rle_dec (tanh x) (- (1 - / 2 ^ 54))); lra.
Qed.

Lemma np_tanh_0 : np_tanh 0 = 0.
Proof.
  rewrite np_tanh_exact; [apply tanh_0|]. rewrite Rabs_R0. lra.
Qed.

Lemma np_tanh_monotone (x y : R) : x <= y -> np_tanh x <= np_tanh y.
Proof.
  intros Hxy. pose proof (tanh_le x y Hxy) as Ht.
  pose proof (tanh_bounds x). pose proof (tanh_bounds y).
  pose proof half_ulp_bounds as [Hu0 Hu].
  unfold np_tanh.
  destruct (Rle_dec (1 - / 2 ^ 54) (tanh x)),
    (Rle_dec (1 - / 2 ^ 54) (tanh y)),
    (Rle_dec (tanh x) (- (1 - / 2 ^ 54))),
    (Rle_dec (tanh y) (- (1 - / 2 ^ 54))); lra.
Qed.

Lemma item_moment_nonlinear_fl (p : Params) (V : vec3) (i : nat) :
  item (moment_nonlinear_fl p V) i = v_range p * np_tanh (item V i / nf) * m.
Proof.
  unfold moment_nonlinear_fl. vec_destruct.
  destruct i as [|[|i]]; reflexivity.
Qed.

Lemma scaled_abs_le (x : R) : Rabs x <= nf -> Rabs (x / nf) <= 1.
Proof.
  intros H. apply Rabs_le_bounds in H. unfold nf in *.
  apply Rabs_le. lra.
Qed.

Lemma moment_nonlinear_fl_exact (p : Params) (V : vec3) :
  in_range nf V -> moment_nonlinear_fl p V = moment_nonlinear p V.
Proof.
  destruct V as [[a b] c]. intros (Ha & Hb & Hc).
  unfold moment_nonlinear_fl, moment_nonlinear. cbn [vdivs vnp_tanh vtanh].
  rewrite !np_tanh_exact by (apply scaled_abs_le, Rabs_le; assumption).
  reflexivity.
Qed.

Lemma moment_fl_high (p : Params) (V : vec3) (i : nat) :
  300 <= item V i -> item (moment_nonlinear_fl p V) i = v_range p * m.
Proof.
  intros H. rewrite item_moment_nonlinear_fl, np_tanh_saturated; [ring|].
  unfold nf. lra.
Qed.

Lemma moment_fl_low (p : Params) (V : vec3) (i : nat) :
  item V i <= -300 -> item (moment_nonlinear_fl p V) i = - (v_range p * m).
Proof.
  intros H. rewrite item_moment_nonlinear_fl, np_tanh_saturated_neg; [ring|].
  unfold nf. lra.
Qed.

(** C4, as the code has it: in the non-linear case the dipole magnitude
    of each coil is [v_range * np.tanh(v / nf) * m] for the voltage [v]
    of that coil alone, and it is 0 at voltage 0.  For a positive
    voltage range its absolute value never exceeds [v_range * m]; it is
    strictly smaller, and the exact [tanh] expression, for voltages up
    to [nf] in absolute value, which covers the range of the notebook;
    from 300 V on the float64 [np.tanh] is exactly 1 and the magnitude
    is exactly [v_range * m], from -300 V down exactly [-v_range * m]:
    the limits are reached, not only approached. *)
Theorem moment_nonlinear_fl_saturates (p : Params) :
  0 < v_range p ->
  (forall V i, item (moment_nonlinear_fl p V) i
               = v_range p * np_tanh (item V i / nf) * m) /\
  moment_nonlinear_fl p zero3 = zero3 /\
  (forall V i, Rabs (item (moment_nonlinear_fl p V) i) <= v_range p * m) /\
  (forall V i, Rabs (item V i) <= nf ->
     item (moment_nonlinear_fl p V) i = v_range p * tanh (item V i / nf) * m /\
     Rabs (item (moment_nonlinear_fl p V) i) < v_range p * m) /\
  (forall V i, 300 <= item V i ->
     item (moment_nonlinear_fl p V) i = v_range p * m) /\
  (forall V i, item V i <= -300 ->
     item (moment_nonlinear_fl p V) i = - (v_range p * m)) /\
  (forall eps, 0 < eps -> exists v0, forall V i,
       v0 < item V i ->
       Rabs (item (moment_nonlinear_fl p V) i - v_range p * m) < eps) /\
  (forall eps, 0 < eps -> exists v0, forall V i,
       item V i < v0 ->
       Rabs (item (moment_nonlinear_fl p V) i - - (v_range p * m)) < eps).
Proof.
  intros Hv.
  assert (Hm : 0 < m) by (rewrite m_value; lra).
  assert (Hc : 0 < v_range p * m) by (apply Rmult_lt_0_compat; assumption).
  split; [|split; [|split; [|split; [|split; [|split; [|split]]]]]].
  - intros V i. apply item_moment_nonlinear_fl.
  - unfold moment_nonlinear_fl, zero3. cbn [vdivs vnp_tanh smul vmuls].
    replace (0 / nf) with 0 by (unfold Rdiv; ring).
    rewrite np_tanh_0. apply vec3_eq; ring.
  - intros V i. rewrite item_moment_nonlinear_fl.
    pose proof (np_tanh_bounds (item V i / nf)) as [Hl Hu].
    replace (v_range p * np_tanh (item V i / nf) * m)
      with (v_range p * m * np_tanh (item V i / nf)) by ring.
    apply Rabs_le. split; nra.
  - intros V i Hi. rewrite item_moment_nonlinear_fl.
    rewrite np_tanh_exact by (apply scaled_abs_le; exact Hi).
    split; [reflexivity|].
    pose proof (tanh_bounds (item V i / nf)) as [Hl Hu].
    replace (v_range p * tanh (item V i / nf) * m)
      with (v_range p * m * tanh (item V i / nf)) by ring.
    apply Rabs_def1; nra.
  - intros V i. apply moment_fl_high.
  - intros V i. apply moment_fl_low.
  - intros eps He. exists 300. intros V i Hlt.
    rewrite moment_fl_high by lra.
    replace (v_range p * m - v_range p * m) with 0 by ring.
    now rewrite Rabs_R0.
  - intros eps He. exists (-300). intros V i Hlt.
    rewrite moment_fl_low by lra.
    replace (- (v_range p * m) - - (v_range p * m)) with 0 by ring.
    now rewrite Rabs_R0.
Qed.

Lemma moment_nonlinear_fl_saturates_witness :
  0 < v_range notebook_params /\
  Rabs (item (moment_nonlinear_fl notebook_params (10, 0, 0)) 0)
  < v_range notebook_params * m /\
  item (moment_nonlinear_fl notebook_params (400, 0, 0)) 0
  = v_range notebook_params * m.
Proof.
  assert (H : 0 < v_range notebook_params) by (simpl; lra).
  destruct (moment_nonlinear_fl_saturates notebook_params H)
    as (_ & _ & _ & Hin & Hhigh & _).
  split; [exact H|]. split.
  - apply (Hin (10, 0, 0) 0%nat). cbn [item]. unfold nf.
    rewrite Rabs_right; lra.
  - apply (Hhigh (400, 0, 0) 0%nat). cbn [item]. lra.
Defined.

(** C4 as the documentation has it fails: at the finite voltage 300 the
    float64 [np.tanh(300 / 15)] is exactly 1, and the dipole magnitude
    is exactly [v_range * m = 1e9], not below it. *)
Lemma moment_reaches_bound :
  item (moment_nonlinear_fl notebook_params (300, 0, 0)) 0 = 1e9 /\
  ~ Rabs (item (moment_nonlinear_fl notebook_params (300, 0, 0)) 0)
    < v_range notebook_params * m.
Proof.
  assert (E : item (moment_nonlinear_fl notebook_params (300, 0, 0)) 0
              = v_range notebook_params * m).
  { apply moment_fl_high. cbn [item]. lra. }
  rewrite E. cbn [v_range notebook_params]. rewrite m_value. split; [lra|].
  rewrite Rabs_right by lra. lra.
Qed.

(** X7: the field at the magnetometer tells the voltages apart where
    [np.tanh] is not saturated: two different voltage vectors give
    different fields in the linear case and, for a voltage range that
    is not zero and voltages up to [nf] in absolute value, in the
    non-linear case.  On the saturated tail it does not: 300 V and
    400 V on the first coil give the same non-linear field. *)
Theorem field_separates_voltages (p : Params) :
  (forall V V', V <> V' -> field_linear V <> field_linear V') /\
  (v_range p <> 0 ->
   forall V V', in_range nf V -> in_range nf V' -> V <> V' ->
     field_nonlinear_fl p V <> field_nonlinear_fl p V') /\
  field_nonlinear_fl p (300, 0, 0) = field_nonlinear_fl p (400, 0, 0).
Proof.
  split; [|split].
  - intros V V' Hne H. unfold field_linear in H.
    rewrite !total_field_at_r0 in H.
    apply Hne, moment_linear_injective, origin_field_injective, H.
  - intros Hv V V' HV HV' Hne H. unfold field_nonlinear_fl in H.
    rewrite !moment_nonlinear_fl_exact in H by assumption.
    rewrite !total_field_at_r0 in H.
    apply Hne, (moment_nonlinear_injective p); [exact Hv|].
    apply origin_field_injective, H.
  - unfold field_nonlinear_fl. f_equal.
    unfold moment_nonlinear_fl. cbn [vdivs vnp_tanh].
    rewrite (np_tanh_saturated (300 / nf)) by (unfold nf; lra).
    rewrite (np_tanh_saturated (400 / nf)) by (unfold nf; lra).
    reflexivity.
Qed.

Lemma field_separates_voltages_witness :
  field_linear (-10, 0, 0) <> field_linear (10, 0, 0) /\
  field_nonlinear_fl notebook_params (-10, 0, 0)
  <> field_nonlinear_fl notebook_params (10, 0, 0).
Proof.
  assert (Hne : (-10, 0, 0) <> (10, 0, 0) :> vec3).
  { intros H. apply (f_equal (fun w : vec3 => fst (fst w))) in H.
    simpl in H. lra. }
  assert (Hv : v_range notebook_params <> 0) by (simpl; lra).
  assert (H1 : in_range nf (-10, 0, 0)) by (unfold in_range, nf; lra).
  assert (H2 : in_range nf (10, 0, 0)) by (unfold in_range, nf; lra).
  destruct (field_separates_voltages notebook_params) as (L & N & _).
  split; [exact (L _ _ Hne) | exact (N Hv _ _ H1 H2 Hne)].
Defined.

(** X8: for a positive voltage range the non-linear dipole magnitude of
    a coil never decreases when the voltage of that coil grows; it
    grows strictly for voltages up to [nf] in absolute value, and it is
    constant from 300 V on, where [np.tanh] is saturated. *)
Theorem moment_nonlinear_fl_monotone (p : Params) (V V' : vec3) (i : nat) :
  0 < v_range p ->
  (item V i <= item V' i ->
   item (moment_nonlinear_fl p V) i <= item (moment_nonlinear_fl p V') i) /\
  (Rabs (item V i) <= nf -> Rabs (item V' i) <= nf ->
   item V i < item V' i ->
   item (moment_nonlinear_fl p V) i < item (moment_nonlinear_fl p V') i) /\
  (300 <= item V i -> 300 <= item V' i ->
   item (moment_nonlinear_fl p V) i = item (moment_nonlinear_fl p V') i).
Proof.
  intros Hv. rewrite !item_moment_nonlinear_fl, m_value. split; [|split].
  - intros Hle.
    assert (Ht : np_tanh (item V i / nf) <= np_tanh (item V' i / nf)).
    { apply np_tanh_monotone. unfold nf. lra. }
    nra.
  - intros H1 H2 Hlt.
    rewrite !np_tanh_exact by (apply scaled_abs_le; assumption).
    assert (Ht : tanh (item V i / nf) < tanh (item V' i / nf)).
    { apply tanh_increasing. unfold nf. lra. }
    nra.
  - intros H1 H2.
    rewrite !np_tanh_saturated by (unfold nf; lra). reflexivity.
Qed.

Lemma moment_nonlinear_fl_monotone_witness :
  item (moment_nonlinear_fl notebook_params (-10, 0, 0)) 0
  < item (moment_nonlinear_fl notebook_params (10, 0, 0)) 0 /\
  item (moment_nonlinear_fl notebook_params (300, 0, 0)) 0
  = item (moment_nonlinear_fl notebook_params (400, 0, 0)) 0.
Proof.
  assert (Hv : 0 < v_range notebook_params) by (simpl; lra).
  destruct (moment_nonlinear_fl_monotone notebook_params
              (-10, 0, 0) (10, 0, 0) 0%nat Hv) as (_ & Hs & _).
  destruct (moment_nonlinear_fl_monotone notebook_params
              (300, 0, 0) (400, 0, 0) 0%nat Hv) as (_ & _ & Hc).
  split.
  - apply Hs; cbn [item]; unfold nf; try lra;
      apply Rabs_le; lra.
  - apply Hc; cbn [item]; lra.
Defined.
